(** * cds2types-watch: the emission driver and its file handling

    A shallow embedding of the class [Program], which drives one
    generation run, folder mode and watch mode, and of [replaceExt] from
    [src/utils/file.utils.ts], with the properties the specification
    states about them.

    Conventions.
    - JavaScript strings are [string]; the only characters the code
      inspects are ASCII ([.], [/], the path separator), for which the
      byte view and the UTF-16 view of a string agree.
    - An object used as a dictionary is the list of its properties in
      the order JavaScript enumerates them: keys that are array indices
      first, in ascending numeric order, then the other keys in the
      order they were created.
    - Node, [@sap/cds], [ts-morph], [chokidar] and the modules of this
      repository that the driver only calls ([cds.parser],
      [types/namespace], [formatter/*]) are interfaces; the development
      is parametric in them and instantiates them once, at the end of
      the definitions, to run everything on concrete inputs.
    - Library calls are modelled on their success path; the one failure
      the driver handles itself, the missing output directory, is
      modelled with [process.exit]. The statements about what ends up
      on disk carry, as hypotheses, the conditions under which the
      calls they rest on succeed ([Fs.writable]), and speak of a path
      only under the spelling the driver passes to [fs]. *)

From Stdlib Require Import ZArith Ascii String.
From Stdlib Require Import Sorting.Sorted Sorting.Permutation.
From stdpp Require Import base strings list gmap.

Local Open Scope Z_scope.

(** ** JavaScript values and string primitives *)

Inductive JsValue : Type :=
| JsUndefined
| JsNull
| JsBoolean (b : bool)
| JsNumber (z : Z)
| JsString (s : string).

Definition typeof (v : JsValue) : string :=
  match v with
  | JsUndefined => "undefined"
  | JsNull => "object"
  | JsBoolean _ => "boolean"
  | JsNumber _ => "number"
  | JsString _ => "string"
  end.

Module Js.

Definition length (s : string) : Z := Z.of_nat (String.length s).

(** [s.charCodeAt(i)]; [-1] stands for [NaN] (index out of range). *)
Definition charCodeAt (s : string) (i : Z) : Z :=
  if i <? 0 then -1
  else match String.get (Z.to_nat i) s with
       | Some c => Z.of_N (N_of_ascii c)
       | None => -1
       end.

(** [s.slice(from, to)] for indices that are already within [0, length]
    or above it; negative indices clamp to [0] here, which is all the
    callers below need. *)
Definition slice (s : string) (from to : Z) : string :=
  let from := Z.max 0 from in
  String.substring (Z.to_nat from) (Z.to_nat (to - from)) s.

Fixpoint lastIndexOf_from (c : ascii) (s : string) (i : Z) (found : Z) : Z :=
  match s with
  | EmptyString => found
  | String d s' =>
      lastIndexOf_from c s' (i + 1) (if Ascii.eqb c d then i else found)
  end.

(** [s.lastIndexOf(c)] for a one-character needle. *)
Definition lastIndexOf (s : string) (c : ascii) : Z :=
  lastIndexOf_from c s 0 (-1).

Definition startsWith (s p : string) : bool := String.prefix p s.

(** Truthiness of an optional string ([undefined] and [""] are falsy). *)
Definition truthy (o : option string) : bool :=
  match o with
  | Some s => negb (String.eqb s "")
  | None => false
  end.

End Js.

(** ** Node's [path] module, as an interface *)

Class PathApi : Type := {
  path_sep : ascii;
  path_extname : string → string;
  path_basename : string → string → string;
  path_dirname : string → string;
  path_join : list string → string;
}.

Definition sepString `{PathApi} : string := String path_sep EmptyString.

(** ** [src/utils/file.utils.ts] *)

Section FileUtils.
Context `{PathApi}.

Definition startsWithSingleDot (fpath : string) : bool :=
  let first2chars := Js.slice fpath 0 2 in
  String.eqb first2chars ("." +:+ sepString) || String.eqb first2chars "./".

Definition replaceExt (npath : JsValue) (ext : string) : JsValue :=
  match npath with
  | JsString s =>
      if Js.length s =? 0 then npath
      else
        let nFileName := path_basename s (path_extname s) +:+ ext in
        let nFilepath := path_join [path_dirname s; nFileName] in
        if startsWithSingleDot s
        then JsString ("." +:+ sepString +:+ nFilepath)
        else JsString nFilepath
  | _ => npath
  end.

(** The call sites pass a string and store the result in a string
    field; on a string, [replaceExt] always answers a string. *)
Definition replaceExtS (npath ext : string) : string :=
  match replaceExt (JsString npath) ext with
  | JsString s => s
  | _ => npath
  end.

End FileUtils.

(** ** The POSIX flavour of Node's [path] (lib/path.js, [posix])

    The loops are written as they are in Node: index scans with the
    same state variables.  This instance is what the concrete runs at
    the end of the file use. *)

Module Posix.

Definition CHAR_DOT : Z := 46.
Definition CHAR_FORWARD_SLASH : Z := 47.

Definition isPosixPathSeparator (code : Z) : bool := code =? CHAR_FORWARD_SLASH.

(** *** [extname] *)

Record ExtScan : Type := mkExtScan {
  startDot : Z;
  startPart : Z;
  ext_end : Z;
  ext_matchedSlash : bool;
  preDotState : Z;
}.

Fixpoint extname_scan (path : string) (n : nat) (st : ExtScan) : ExtScan :=
  match n with
  | O => st
  | S n' =>
      let i := Z.of_nat n' in
      let code := Js.charCodeAt path i in
      if code =? CHAR_FORWARD_SLASH then
        if negb (ext_matchedSlash st)
        then mkExtScan (startDot st) (i + 1) (ext_end st)
               (ext_matchedSlash st) (preDotState st)
        else extname_scan path n' st
      else
        let st1 :=
          if ext_end st =? -1
          then mkExtScan (startDot st) (startPart st) (i + 1) false (preDotState st)
          else st in
        let st2 :=
          if code =? CHAR_DOT then
            if startDot st1 =? -1
            then mkExtScan i (startPart st1) (ext_end st1)
                   (ext_matchedSlash st1) (preDotState st1)
            else if negb (preDotState st1 =? 1)
            then mkExtScan (startDot st1) (startPart st1) (ext_end st1)
                   (ext_matchedSlash st1) 1
            else st1
          else if negb (startDot st1 =? -1)
          then mkExtScan (startDot st1) (startPart st1) (ext_end st1)
                 (ext_matchedSlash st1) (-1)
          else st1 in
        extname_scan path n' st2
  end.

Definition extname (path : string) : string :=
  let st := extname_scan path (String.length path) (mkExtScan (-1) 0 (-1) true 0) in
  if (startDot st =? -1)
     || (ext_end st =? -1)
     || (preDotState st =? 0)
     || ((preDotState st =? 1)
         && (startDot st =? ext_end st - 1)
         && (startDot st =? startPart st + 1))
  then ""
  else Js.slice path (startDot st) (ext_end st).

(** *** [basename] *)

Record BaseScan : Type := mkBaseScan {
  base_start : Z;
  base_end : Z;
  base_matchedSlash : bool;
  extIdx : Z;
  firstNonSlashEnd : Z;
}.

Fixpoint basename_suffix_scan (path suffix : string) (n : nat) (st : BaseScan)
  : BaseScan :=
  match n with
  | O => st
  | S n' =>
      let i := Z.of_nat n' in
      let code := Js.charCodeAt path i in
      if code =? CHAR_FORWARD_SLASH then
        if negb (base_matchedSlash st)
        then mkBaseScan (i + 1) (base_end st) (base_matchedSlash st)
               (extIdx st) (firstNonSlashEnd st)
        else basename_suffix_scan path suffix n' st
      else
        let st1 :=
          if firstNonSlashEnd st =? -1
          then mkBaseScan (base_start st) (base_end st) false (extIdx st) (i + 1)
          else st in
        let st2 :=
          if 0 <=? extIdx st1 then
            if code =? Js.charCodeAt suffix (extIdx st1) then
              if extIdx st1 - 1 =? -1
              then mkBaseScan (base_start st1) i (base_matchedSlash st1)
                     (extIdx st1 - 1) (firstNonSlashEnd st1)
              else mkBaseScan (base_start st1) (base_end st1) (base_matchedSlash st1)
                     (extIdx st1 - 1) (firstNonSlashEnd st1)
            else mkBaseScan (base_start st1) (firstNonSlashEnd st1)
                   (base_matchedSlash st1) (-1) (firstNonSlashEnd st1)
          else st1 in
        basename_suffix_scan path suffix n' st2
  end.

Fixpoint basename_plain_scan (path : string) (n : nat) (st : BaseScan) : BaseScan :=
  match n with
  | O => st
  | S n' =>
      let i := Z.of_nat n' in
      if Js.charCodeAt path i =? CHAR_FORWARD_SLASH then
        if negb (base_matchedSlash st)
        then mkBaseScan (i + 1) (base_end st) (base_matchedSlash st)
               (extIdx st) (firstNonSlashEnd st)
        else basename_plain_scan path n' st
      else if base_end st =? -1
      then basename_plain_scan path n'
             (mkBaseScan (base_start st) (i + 1) false (extIdx st) (firstNonSlashEnd st))
      else basename_plain_scan path n' st
  end.

Definition basename (path suffix : string) : string :=
  if (0 <? Js.length suffix) && (Js.length suffix <=? Js.length path) then
    if String.eqb suffix path then ""
    else
      let st := basename_suffix_scan path suffix (String.length path)
                  (mkBaseScan 0 (-1) true (Js.length suffix - 1) (-1)) in
      let e :=
        if base_start st =? base_end st then firstNonSlashEnd st
        else if base_end st =? -1 then Js.length path
        else base_end st in
      Js.slice path (base_start st) e
  else
    let st := basename_plain_scan path (String.length path)
                (mkBaseScan 0 (-1) true (-1) (-1)) in
    if base_end st =? -1 then "" else Js.slice path (base_start st) (base_end st).

(** *** [dirname] *)

(** The scan runs over the indices [length - 1] down to [1]; the
    state is the pair of Node's [end] and [matchedSlash]. *)
Fixpoint dirname_scan (path : string) (n : nat) (matchedSlash : bool) : Z :=
  match n with
  | O => -1
  | S n' =>
      let i := Z.of_nat n in
      if Js.charCodeAt path i =? CHAR_FORWARD_SLASH then
        if negb matchedSlash then i
        else dirname_scan path n' matchedSlash
      else dirname_scan path n' false
  end.

Definition dirname (path : string) : string :=
  if Js.length path =? 0 then "."
  else
    let hasRoot := Js.charCodeAt path 0 =? CHAR_FORWARD_SLASH in
    let e := dirname_scan path (String.length path - 1) true in
    if e =? -1 then (if hasRoot then "/" else ".")
    else if hasRoot && (e =? 1) then "//"
    else Js.slice path 0 e.

(** *** [normalize] and [join] *)

Record NormState : Type := mkNormState {
  res : string;
  lastSegmentLength : Z;
  lastSlash : Z;
  dots : Z;
  code : Z;
}.

Definition normalize_step (path : string) (allowAboveRoot : bool)
    (i : Z) (c : Z) (st : NormState) : NormState :=
  let r := res st in
  if isPosixPathSeparator c then
    if (lastSlash st =? i - 1) || (dots st =? 1) then
      mkNormState r (lastSegmentLength st) i 0 c
    else if dots st =? 2 then
      let above :=
        if allowAboveRoot
        then mkNormState (if 0 <? Js.length r then r +:+ "/.." else "..") 2 i 0 c
        else mkNormState r (lastSegmentLength st) i 0 c in
      if (Js.length r <? 2)
         || negb (lastSegmentLength st =? 2)
         || negb (Js.charCodeAt r (Js.length r - 1) =? CHAR_DOT)
         || negb (Js.charCodeAt r (Js.length r - 2) =? CHAR_DOT)
      then
        if 2 <? Js.length r then
          let lastSlashIndex := Js.lastIndexOf r "/" in
          if lastSlashIndex =? -1
          then mkNormState "" 0 i 0 c
          else
            let r' := Js.slice r 0 lastSlashIndex in
            mkNormState r' (Js.length r' - 1 - Js.lastIndexOf r' "/") i 0 c
        else if negb (Js.length r =? 0)
        then mkNormState "" 0 i 0 c
        else above
      else above
    else
      let seg := Js.slice path (lastSlash st + 1) i in
      mkNormState (if 0 <? Js.length r then r +:+ "/" +:+ seg else seg)
        (i - lastSlash st - 1) i 0 c
  else if (c =? CHAR_DOT) && negb (dots st =? -1) then
    mkNormState r (lastSegmentLength st) (lastSlash st) (dots st + 1) c
  else
    mkNormState r (lastSegmentLength st) (lastSlash st) (-1) c.

Fixpoint normalizeString_loop (path : string) (allowAboveRoot : bool)
    (fuel : nat) (i : Z) (st : NormState) : string :=
  match fuel with
  | O => res st
  | S fuel' =>
      if i <? Js.length path then
        normalizeString_loop path allowAboveRoot fuel' (i + 1)
          (normalize_step path allowAboveRoot i (Js.charCodeAt path i) st)
      else if isPosixPathSeparator (code st) then res st
      else
        normalizeString_loop path allowAboveRoot fuel' (i + 1)
          (normalize_step path allowAboveRoot i CHAR_FORWARD_SLASH st)
  end.

Definition normalizeString (path : string) (allowAboveRoot : bool) : string :=
  normalizeString_loop path allowAboveRoot (S (String.length path)) 0
    (mkNormState "" 0 (-1) 0 0).

Definition normalize (path : string) : string :=
  if Js.length path =? 0 then "."
  else
    let isAbsolute := Js.charCodeAt path 0 =? CHAR_FORWARD_SLASH in
    let trailingSeparator :=
      Js.charCodeAt path (Js.length path - 1) =? CHAR_FORWARD_SLASH in
    let p := normalizeString path (negb isAbsolute) in
    if Js.length p =? 0 then
      if isAbsolute then "/" else if trailingSeparator then "./" else "."
    else
      let p := if trailingSeparator then p +:+ "/" else p in
      if isAbsolute then "/" +:+ p else p.

Definition join_step (joined : option string) (arg : string) : option string :=
  if 0 <? Js.length arg then
    match joined with
    | None => Some arg
    | Some j => Some (j +:+ "/" +:+ arg)
    end
  else joined.

Definition join (args : list string) : string :=
  match foldl join_step None args with
  | None => "."
  | Some joined => normalize joined
  end.

End Posix.

Definition posixPath : PathApi := {|
  path_sep := "/"%char;
  path_extname := Posix.extname;
  path_basename := Posix.basename;
  path_dirname := Posix.dirname;
  path_join := Posix.join;
|}.

(** ** The process and the world it acts on *)

Inductive FsNode : Type :=
| File (content : string)
| Directory.

Inductive Event : Type :=
| ConsoleInfo (msg : string)
| ConsoleLog (msg : string)
| ConsoleError (msg : string)
| FsWriteFile (path content : string)
| FsRemove (path : string).

(** The file system maps the paths that exist to what is there;
    [dirents] is what [readdirSync] answers; the journal lists, oldest
    first, what the process printed and what it changed on disk. *)
Record World : Type := mkWorld {
  fs : gmap string FsNode;
  dirents : string → list string;
  journal : list Event;
}.

Inductive Outcome (A : Type) : Type :=
| Done (a : A) (w : World)
| Exit (code : Z) (w : World).
Arguments Done {A} a w.
Arguments Exit {A} code w.

(** A computation of the process: it runs to a value, or it ends the
    process through [process.exit]; nothing runs after that. *)
Definition Proc (A : Type) : Type := World → Outcome A.

#[export] Instance Proc_ret : MRet Proc := λ A a w, Done a w.
#[export] Instance Proc_bind : MBind Proc := λ A B k m w,
  match m w with
  | Done a w' => k a w'
  | Exit code w' => Exit code w'
  end.

Definition when (b : bool) (m : Proc unit) : Proc unit :=
  if b then m else mret tt.

(** [for (const x of xs) { await body(x) }] *)
Fixpoint forOf {A : Type} (xs : list A) (body : A → Proc unit) : Proc unit :=
  match xs with
  | [] => mret tt
  | x :: xs' => body x ;; forOf xs' body
  end.

Definition record (e : Event) (w : World) : World :=
  mkWorld (fs w) (dirents w) (journal w ++ [e]).

Definition withFile (path content : string) (w : World) : World :=
  record (FsWriteFile path content)
    (mkWorld (<[path := File content]> (fs w)) (dirents w) (journal w)).

Definition withoutPath (path : string) (w : World) : World :=
  record (FsRemove path) (mkWorld (delete path (fs w)) (dirents w) (journal w)).

Module console.
Definition info (msg : string) : Proc unit := λ w, Done tt (record (ConsoleInfo msg) w).
Definition log (msg : string) : Proc unit := λ w, Done tt (record (ConsoleLog msg) w).
Definition error (msg : string) : Proc unit := λ w, Done tt (record (ConsoleError msg) w).
End console.

Module process.
Definition exit {A : Type} (code : Z) : Proc A := λ w, Exit code w.
End process.

(** [fs] and [fs-extra], on their success path. Paths are taken as
    written: the file system is keyed by the spelling the driver passes
    in, and no statement below speaks of a file under another spelling.
    A write records the file and its content; the real call fails when
    [writable] does not hold. A removal takes the entry at the path
    away; [fs-extra] also removes what is below a directory, so the
    statements about what a removal leaves say that the output path is
    not a directory. *)
Module Fs.
Definition exists_ (w : World) (path : string) : bool :=
  bool_decide (is_Some (fs w !! path)).

(** When [fs.writeFile(path, _)] and [fs.writeFileSync(path, _)] do
    succeed: the parent of [path] is a directory (otherwise they fail
    with [ENOENT] or [ENOTDIR]) and [path] itself is not one
    (otherwise [EISDIR]). *)
Definition writable `{PathApi} (w : World) (path : string) : Prop :=
  fs w !! path_dirname path = Some Directory ∧ fs w !! path ≠ Some Directory.

Definition existsSync (path : string) : Proc bool := λ w, Done (exists_ w path) w.

Definition readdirSync (path : string) : Proc (list string) :=
  λ w, Done (dirents w path) w.

Definition writeFile (path content : string) : Proc unit :=
  λ w, Done tt (withFile path content w).

Definition writeFileSync := writeFile.

Definition removeSync (path : string) : Proc unit :=
  λ w, Done tt (withoutPath path w).
End Fs.

(** ** Arrays and objects of the compiled schema *)

Module JsArray.
Section Sort.
Context {A : Type} (comparefn : A → A → Z).

(** [x] stood before every element of [l]; it stays before the first
    one it does not have to follow. *)
Fixpoint insert (x : A) (l : list A) : list A :=
  match l with
  | [] => [x]
  | y :: l' =>
      if comparefn x y <=? 0 then x :: y :: l' else y :: insert x l'
  end.

(** [Array.prototype.sort(comparefn)]: a stable sort. *)
Definition sort (l : list A) : list A := foldr insert [] l.

(** [a] may stand before [b]. *)
Definition precedes (a b : A) : Prop := comparefn a b ≤ 0.
End Sort.
End JsArray.

Module JsObject.

Definition digitOf (c : ascii) : option N :=
  let n := N_of_ascii c in
  if ((48 <=? n) && (n <=? 57))%N then Some (n - 48)%N else None.

Fixpoint numeral (s : string) (acc : N) : option N :=
  match s with
  | EmptyString => Some acc
  | String c s' =>
      match digitOf c with
      | Some d => numeral s' (10 * acc + d)%N
      | None => None
      end
  end.

(** The array index a key stands for: the key is the canonical decimal
    numeral (no sign, no leading zero) of an integer below [2^32 - 1]. *)
Definition arrayIndex (k : string) : option N :=
  match k with
  | EmptyString => None
  | String c rest =>
      if Ascii.eqb c "0"%char && negb (String.eqb rest "") then None
      else match numeral k 0 with
           | Some n => if (n <? 4294967295)%N then Some n else None
           | None => None
           end
  end.

Section Props.
Context {V : Type}.

(** An object as its own properties, in the order they enumerate. *)
Definition t : Type := list (string * V).

Definition has (o : t) (k : string) : bool :=
  existsb (λ e, String.eqb (fst e) k) o.

(** A present key keeps its place and takes the new value. *)
Fixpoint replace (o : t) (k : string) (v : V) : t :=
  match o with
  | [] => []
  | (k', v') :: o' =>
      if String.eqb k' k then (k, v) :: o' else (k', v') :: replace o' k v
  end.

(** A new array index goes behind the array indices below it and
    before everything else. *)
Fixpoint insertIndex (o : t) (i : N) (k : string) (v : V) : t :=
  match o with
  | [] => [(k, v)]
  | (k', v') :: o' =>
      match arrayIndex k' with
      | Some j =>
          if (j <? i)%N then (k', v') :: insertIndex o' i k v
          else (k, v) :: (k', v') :: o'
      | None => (k, v) :: (k', v') :: o'
      end
  end.

(** Defining the own property [k] with the value [v], as
    [Object.fromEntries] and [JSON.parse] do for each entry. *)
Definition set (o : t) (k : string) (v : V) : t :=
  if has o k then replace o k v
  else match arrayIndex k with
       | Some i => insertIndex o i k v
       | None => o ++ [(k, v)]
       end.

Definition entries (o : t) : list (string * V) := o.

Definition fromEntries (es : list (string * V)) : t :=
  foldl (λ o e, set o (fst e) (snd e)) [] es.

Definition keys (o : t) : list string := map fst o.

(** No key is an array index. *)
Definition named (es : list (string * V)) : Prop :=
  Forall (λ e, arrayIndex (fst e) = None) es.

(** The list is what an object enumerates: an object built from these
    entries enumerates them again, one by one and in this order. *)
Definition enumerated (o : t) : Prop := fromEntries (entries o) = o.
End Props.
Arguments t : clear implicits.
End JsObject.

(** ** Types of [utils/types] and [utils/cds.types], as the driver uses them *)

Module IOptions.
Record t : Type := mk {
  cds : string;
  output : string;
  prefix : string;
  json : bool;
  debug : bool;
  format : bool;
  sort : bool;
  folder : option string;
  watch : bool;
}.
End IOptions.
Abbreviation IOptions := IOptions.t.

(** The compiled schema: [definitions] and whatever else the compiler
    put next to it. *)
Record ICsn (Def Rest : Type) : Type := mkICsn {
  csn_definitions : JsObject.t Def;
  csn_rest : Rest;
}.
Arguments mkICsn {Def Rest}.
Arguments csn_definitions {Def Rest}.
Arguments csn_rest {Def Rest}.

(** [INamespace] and [IService]: a name and the definitions it owns. *)
Record IGroup (Defs : Type) : Type := mkIGroup {
  grp_name : string;
  grp_definitions : Defs;
}.
Arguments mkIGroup {Defs}.
Arguments grp_name {Defs}.
Arguments grp_definitions {Defs}.

Record IParsed (Defs : Type) : Type := mkIParsed {
  parsed_namespaces : option (list (IGroup Defs));
  parsed_services : option (list (IGroup Defs));
  parsed_definitions : option Defs;
}.
Arguments mkIParsed {Defs}.
Arguments parsed_namespaces {Defs}.
Arguments parsed_services {Defs}.
Arguments parsed_definitions {Defs}.

(** [new Namespace(definitions, interfacePrefix, name?)]: the object is
    what it was constructed from. *)
Record Namespace (Defs : Type) : Type := new_Namespace {
  ns_definitions : Defs;
  ns_interfacePrefix : string;
  ns_name : option string;
}.
Arguments new_Namespace {Defs}.
Arguments ns_definitions {Defs}.
Arguments ns_interfacePrefix {Defs}.
Arguments ns_name {Defs}.

(** [Formatter]: the abstract class behind [PrettierFormatter] and
    [NoopFormatter]. *)
Record Formatter (Settings : Type) : Type := mkFormatter {
  getSettings : Settings;
  formatter_format : string → string;
}.
Arguments mkFormatter {Settings}.
Arguments getSettings {Settings}.
Arguments formatter_format {Settings}.

(** ** [Program.generateCode]

    The driver is written over whatever [Namespace.generateCode] does
    to the source file it is handed. *)

Section GenerateCode.
Context {Defs Source : Type}.
Variable Namespace_getTypes : Namespace Defs → list string.
Variable Namespace_generateCode : Namespace Defs → Source → list string → Source.

(** The array [namespaces] after the three [if] blocks. *)
Definition collectNamespaces (parsed : IParsed Defs) (interfacePrefix : string)
  : list (Namespace Defs) :=
  let namespaces : list (Namespace Defs) := [] in
  let namespaces :=
    match parsed_namespaces parsed with
    | Some nss =>
        let ns := map (λ n, new_Namespace (grp_definitions n) interfacePrefix
                              (Some (grp_name n))) nss in
        namespaces ++ ns
    | None => namespaces
    end in
  let namespaces :=
    match parsed_services parsed with
    | Some svs =>
        let ns := map (λ s, new_Namespace (grp_definitions s) interfacePrefix
                              (Some (grp_name s))) svs in
        namespaces ++ ns
    | None => namespaces
    end in
  let namespaces :=
    match parsed_definitions parsed with
    | Some defs =>
        let ns := new_Namespace defs interfacePrefix None in
        namespaces ++ [ns]
    | None => namespaces
    end in
  namespaces.

Definition generateCode (source : Source) (parsed : IParsed Defs)
    (interfacePrefix : string) : Source :=
  let namespaces := collectNamespaces parsed interfacePrefix in
  foldl (λ source namespace,
           let types := concat (map Namespace_getTypes namespaces) in
           Namespace_generateCode namespace source types)
        source namespaces.
End GenerateCode.

(** ** The collaborators of the driver *)

Class Collaborators : Type := {
  (** [@sap/cds] and the JavaScript runtime *)
  CsnDef : Type;
  CsnRest : Type;
  cds_load_json : string → ICsn CsnDef CsnRest;
  (** [JSON.parse] answers objects *)
  cds_load_json_enumerated :
    ∀ path, JsObject.enumerated (csn_definitions (cds_load_json path));
  JSON_stringify : ICsn CsnDef CsnRest → string;
  localeCompare : string → string → Z;
  (** [cds.parser] *)
  Defs : Type;
  CDSParser_parse : ICsn CsnDef CsnRest → IParsed Defs;
  (** [types/namespace] *)
  Namespace_getTypes : Namespace Defs → list string;
  (** [ts-morph] *)
  Settings : Type;
  SourceFile : Type;
  Project_createSourceFile : Settings → string → SourceFile;
  SourceFile_formatText : SourceFile → SourceFile;
  SourceFile_getFullText : SourceFile → string;
  Namespace_generateCode : Namespace Defs → SourceFile → list string → SourceFile;
  (** [formatter/*]: [new F(output).init()] *)
  PrettierFormatter_init : string → Formatter Settings;
  NoopFormatter_init : string → Formatter Settings;
}.

(** ** [chokidar] *)

Record FSWatcher : Type := mkFSWatcher {
  watched : string;
  listeners : list (string * (string → Proc unit));
}.

Module chokidar.
Definition watch (paths : string) : FSWatcher := mkFSWatcher paths [].

Definition on (w : FSWatcher) (event : string) (listener : string → Proc unit)
  : FSWatcher :=
  mkFSWatcher (watched w) (listeners w ++ [(event, listener)]).

(** The watcher delivers [event] for [path]: every listener registered
    for it runs, in registration order. *)
Definition emit (w : FSWatcher) (event path : string) : Proc unit :=
  forOf (listeners w)
    (λ l, if String.eqb (fst l) event then snd l path else mret tt).
End chokidar.

(** ** [class Program] *)

Section Program.
Context `{PathApi} `{Collaborators}.

(** [{ ...options }] followed by the assignments to [cds] and
    [output]. *)
Definition spreadWith (options : IOptions) (cds output : string) : IOptions :=
  IOptions.mk cds output
    (IOptions.prefix options) (IOptions.json options) (IOptions.debug options)
    (IOptions.format options) (IOptions.sort options) (IOptions.folder options)
    (IOptions.watch options).

Definition loadCdsAndConvertToJSON (path : string) (sort : bool)
  : Proc (ICsn CsnDef CsnRest) :=
  let result := cds_load_json path in
  let result :=
    if sort then
      mkICsn
        (JsObject.fromEntries
           (JsArray.sort (λ key value, localeCompare (fst key) (fst value))
              (JsObject.entries (csn_definitions result))))
        (csn_rest result)
    else result in
  mret result.

Definition createFormatter (options : IOptions) : Proc (Formatter Settings) :=
  mret (if IOptions.format options
        then PrettierFormatter_init (IOptions.output options)
        else NoopFormatter_init (IOptions.output options)).

Definition writeSource (filepath source : string) : Proc unit :=
  let dir := path_dirname filepath in
  dirExists ← Fs.existsSync dir;
  if dirExists : bool then
    Fs.writeFile filepath source;;
    console.log ("Wrote types to '" +:+ filepath +:+ "'")
  else
    console.error ("Unable to write types: '" +:+ dir +:+ "' is not a valid directory");;
    process.exit (-1).

Definition processFile (options : IOptions) : Proc unit :=
  console.info ("Processing file " +:+ IOptions.cds options);;
  jsonObj ← loadCdsAndConvertToJSON (IOptions.cds options) (IOptions.sort options);
  when (IOptions.json options)
    (Fs.writeFileSync (IOptions.output options +:+ ".json") (JSON_stringify jsonObj));;
  let parsed := CDSParser_parse jsonObj in
  outputExists ← Fs.existsSync (IOptions.output options);
  when outputExists (Fs.removeSync (IOptions.output options));;
  formatter ← createFormatter options;
  let settings := getSettings formatter in
  let source := Project_createSourceFile settings (IOptions.output options) in
  let source :=
    generateCode Namespace_getTypes Namespace_generateCode
      source parsed (IOptions.prefix options) in
  let source := SourceFile_formatText source in
  let text := SourceFile_getFullText source in
  let formattedText := formatter_format formatter text in
  writeSource (IOptions.output options) formattedText.

Definition processFiles (options : IOptions) : Proc unit :=
  let folder := default "" (IOptions.folder options) in
  filesToConvert ← Fs.readdirSync folder;
  forOf filesToConvert (λ filePath,
    if String.eqb (path_extname filePath) ".cds" then
      let cds := path_join [folder; filePath] in
      let newOptions := spreadWith options cds (replaceExtS cds ".ts") in
      processFile newOptions
    else mret tt).

(** The listeners call [this.processFile]. The method is a parameter
    here, so that what a listener hands to it can be stated for
    whatever the method does with it. *)
Definition createWatcherWith (this_processFile : IOptions → Proc unit)
    (options : IOptions) : Proc (option FSWatcher) :=
  if negb (IOptions.watch options) then mret None
  else
    let searchString :=
      if Js.truthy (IOptions.folder options)
      then default "" (IOptions.folder options) +:+ "/*.cds"
      else IOptions.cds options in
    let watcher := chokidar.watch searchString in
    let watcher :=
      if Js.truthy (IOptions.folder options) then
        chokidar.on watcher "add" (λ filePath,
          console.info ("File " +:+ filePath +:+ " has been added!");;
          let newOptions := spreadWith options filePath (replaceExtS filePath ".ts") in
          this_processFile newOptions)
      else watcher in
    let watcher :=
      chokidar.on watcher "change" (λ filePath,
        console.info ("File " +:+ filePath +:+ " has been changed!");;
        let newOptions := spreadWith options filePath (replaceExtS filePath ".ts") in
        this_processFile newOptions) in
    console.info ("Watching for changes with rule: " +:+ searchString);;
    mret (Some watcher).

Definition createWatcher (options : IOptions) : Proc (option FSWatcher) :=
  createWatcherWith processFile options.

(** [run] leaves the watcher, when there is one, behind. *)
Definition run (options : IOptions) : Proc (option FSWatcher) :=
  (if Js.truthy (IOptions.folder options)
   then processFiles options
   else processFile options);;
  createWatcher options.

End Program.

(** ** A concrete set of collaborators

    Small stand-ins for the compiler, the parser, the synthesizer and
    the formatter, so that the driver can be run: a compiled schema is
    a list of qualified names with their kinds, a group is named by the
    first segment of the names it owns, and a namespace prints one line
    per definition. *)

Module Demo.

Definition schemaOf (path : string) : JsObject.t string :=
  if String.eqb path "srv/orders.cds" then
    [("shop.Order", "entity"); ("shop.Item", "entity");
     ("Currency", "type"); ("admin.User", "entity")]
  else if String.eqb path "srv/people.cds" then
    [("hr.Person", "entity"); ("hr.Badge", "type")]
  else [].

Definition schemaOf_enumerated (path : string) : JsObject.enumerated (schemaOf path).
Proof. unfold schemaOf. repeat case_match; vm_compute; reflexivity. Defined.

Definition compare3 (a b : string) : Z :=
  match String.compare a b with
  | Lt => -1
  | Eq => 0
  | Gt => 1
  end.

Fixpoint firstSegment (s : string) : option string :=
  match s with
  | EmptyString => None
  | String c s' =>
      if Ascii.eqb c "."%char then Some EmptyString
      else String c <$> firstSegment s'
  end.

Definition Definitions : Type := list (string * string).

Fixpoint addToGroup (gs : list (IGroup Definitions)) (g : string) (d : string * string)
  : list (IGroup Definitions) :=
  match gs with
  | [] => [mkIGroup g [d]]
  | g' :: gs' =>
      if String.eqb (grp_name g') g
      then mkIGroup g (grp_definitions g' ++ [d]) :: gs'
      else g' :: addToGroup gs' g d
  end.

Definition parse (csn : ICsn string unit) : IParsed Definitions :=
  let step (acc : list (IGroup Definitions) * Definitions) (d : string * string) :=
    match firstSegment (fst d) with
    | Some g => (addToGroup (fst acc) g d, snd acc)
    | None => (fst acc, snd acc ++ [d])
    end in
  let r := foldl step ([], []) (csn_definitions csn) in
  mkIParsed (Some (fst r)) (Some []) (Some (snd r)).

Definition getTypes (ns : Namespace Definitions) : list string :=
  map fst (ns_definitions ns).

Definition emit (ns : Namespace Definitions) (types : list string) : list string :=
  let body :=
    map (λ d, snd d +:+ " " +:+ ns_interfacePrefix ns +:+ fst d) (ns_definitions ns) in
  match ns_name ns with
  | Some n => ["namespace " +:+ n] ++ body ++ ["end"]
  | None => body
  end.

Definition lines (l : list string) : string :=
  foldr (λ x acc, x +:+ ";" +:+ acc) "" l.

Definition collaborators : Collaborators := {|
  CsnDef := string;
  CsnRest := unit;
  cds_load_json := λ path, mkICsn (schemaOf path) tt;
  cds_load_json_enumerated := schemaOf_enumerated;
  JSON_stringify := λ csn, lines (JsObject.keys (csn_definitions csn));
  localeCompare := compare3;
  Defs := Definitions;
  CDSParser_parse := parse;
  Namespace_getTypes := getTypes;
  Settings := unit;
  SourceFile := list string;
  Project_createSourceFile := λ _ _, [];
  SourceFile_formatText := λ src, src;
  SourceFile_getFullText := lines;
  Namespace_generateCode := λ ns src types, src ++ emit ns types;
  PrettierFormatter_init := λ _, mkFormatter tt (λ text, text);
  NoopFormatter_init := λ _, mkFormatter tt (λ text, text);
|}.

Definition options : IOptions :=
  IOptions.mk "srv/orders.cds" "gen/orders.ts" "I" true false true true None true.

Definition folderOptions : IOptions :=
  IOptions.mk "" "" "I" false false false false (Some "srv") true.

Definition world : World :=
  mkWorld (<["srv" := Directory]> (<["gen" := Directory]> ∅))
    (λ dir, if String.eqb dir "srv"
            then ["orders.cds"; "README.md"; "people.cds"; ".cds"]
            else [])
    [].

End Demo.

(** ** Vocabulary of the statements *)

Definition outcomeWorld {A : Type} (o : Outcome A) : World :=
  match o with
  | Done _ w => w
  | Exit _ w => w
  end.

(** The files a journal says were written, with their content. *)
Definition writes (evs : list Event) : list (string * string) :=
  omap (λ e, match e with FsWriteFile p c => Some (p, c) | _ => None end) evs.

(** The lines a journal says went to [console.info]. *)
Definition infos (evs : list Event) : list string :=
  omap (λ e, match e with ConsoleInfo m => Some m | _ => None end) evs.

(** Modelled from the spec: [Namespace.generateCode] (types/namespace is
    not among the sources) serialises the declaration units of its group
    into the one output document; the document is the list of what has
    been emitted so far and [emit] is what a group contributes, given
    the type list it is handed. *)
Definition Namespace_generateCode_append {Defs Unit : Type}
    (emit : Namespace Defs → list string → list Unit)
    (ns : Namespace Defs) (source : list Unit) (types : list string) : list Unit :=
  source ++ emit ns types.

(** A source file that only remembers who wrote to it and with which
    type list. *)
Definition Namespace_generateCode_logged {Defs : Type}
    (ns : Namespace Defs) (calls : list (Namespace Defs * list string))
    (types : list string) : list (Namespace Defs * list string) :=
  calls ++ [(ns, types)].

Definition namespaceOf {Defs : Type} (interfacePrefix : string) (g : IGroup Defs)
  : Namespace Defs :=
  new_Namespace (grp_definitions g) interfacePrefix (Some (grp_name g)).

Section Vocabulary.
Context `{PathApi} `{Collaborators}.

(** The order [localeCompare] puts on the entries of [definitions]. *)
Definition byQualifiedName : relation (string * CsnDef) :=
  JsArray.precedes (λ key value, localeCompare (fst key) (fst value)).

(** What [loadCdsAndConvertToJSON] hands to the rest of a run. *)
Definition loadedJson (options : IOptions) : ICsn CsnDef CsnRest :=
  let result := cds_load_json (IOptions.cds options) in
  if IOptions.sort options then
    mkICsn
      (JsObject.fromEntries
         (JsArray.sort (λ key value, localeCompare (fst key) (fst value))
            (JsObject.entries (csn_definitions result))))
      (csn_rest result)
  else result.

Definition formatterOf (options : IOptions) : Formatter Settings :=
  if IOptions.format options
  then PrettierFormatter_init (IOptions.output options)
  else NoopFormatter_init (IOptions.output options).

(** The text a run hands to [writeSource]. *)
Definition generatedText (options : IOptions) : string :=
  let formatter := formatterOf options in
  let source :=
    Project_createSourceFile (getSettings formatter) (IOptions.output options) in
  let source :=
    generateCode Namespace_getTypes Namespace_generateCode
      source (CDSParser_parse (loadedJson options)) (IOptions.prefix options) in
  formatter_format formatter
    (SourceFile_getFullText (SourceFile_formatText source)).

Definition jsonDump (options : IOptions) : Event :=
  FsWriteFile (IOptions.output options +:+ ".json")
    (JSON_stringify (loadedJson options)).

(** The world just before [writeSource]: the run has announced itself,
    dumped the schema if asked to, and cleared the old output. *)
Definition beforeWrite (options : IOptions) (w : World) : World :=
  let w := record (ConsoleInfo ("Processing file " +:+ IOptions.cds options)) w in
  let w :=
    if IOptions.json options
    then withFile (IOptions.output options +:+ ".json")
           (JSON_stringify (loadedJson options)) w
    else w in
  if Fs.exists_ w (IOptions.output options)
  then withoutPath (IOptions.output options) w
  else w.

(** The runs folder mode makes for a directory listing. *)
Definition folderRuns (options : IOptions) (folder : string)
    (listing : list string) : list IOptions :=
  map (λ filePath,
         let cds := path_join [folder; filePath] in
         spreadWith options cds (replaceExtS cds ".ts"))
      (filter (λ filePath, path_extname filePath = ".cds") listing).

(** What one finished run adds to the written files. *)
Definition runWrites (options : IOptions) : list (string * string) :=
  (if IOptions.json options
   then [(IOptions.output options +:+ ".json", JSON_stringify (loadedJson options))]
   else [])
  ++ [(IOptions.output options, generatedText options)].

(** The run a watcher event for [filePath] asks for. *)
Definition rerun (options : IOptions) (filePath : string) : Proc unit :=
  processFile (spreadWith options filePath (replaceExtS filePath ".ts")).

(** The watcher reacts to [event] by re-running the pipeline for the
    file the event names. *)
Definition rerunsOn (options : IOptions) (event : string) : Prop :=
  ∃ watcher : FSWatcher,
    (∀ w0, ∃ w0', createWatcher options w0 = Done (Some watcher) w0')
    ∧ ∀ (filePath : string) (w : World),
        ∃ msg, chokidar.emit watcher event filePath w
               = (console.info msg;; rerun options filePath) w.

(** Watch mode re-runs on every added and on every changed event,
    however the watch was configured. *)
Definition rerunsOnAddedAndChanged (options : IOptions) : Prop :=
  IOptions.watch options = true →
  rerunsOn options "add" ∧ rerunsOn options "change".

End Vocabulary.

(** ** Vocabulary of the further statements *)

(** [o[k]]: the value the object holds under the key [k]. *)
Fixpoint propertyOf {V : Type} (o : JsObject.t V) (k : string) : option V :=
  match o with
  | [] => None
  | (k', v) :: o' => if String.eqb k' k then Some v else propertyOf o' k
  end.

Section FurtherVocabulary.
Context `{PathApi} `{Collaborators}.

(** What [run] does before it turns to the watcher. *)
Definition initialProcessing (options : IOptions) : Proc unit :=
  if Js.truthy (IOptions.folder options)
  then processFiles options
  else processFile options.

(** The message [writeSource] prints before it gives up. *)
Definition noDirectoryMessage (filepath : string) : string :=
  "Unable to write types: '" +:+ path_dirname filepath +:+ "' is not a valid directory".

End FurtherVocabulary.

(** ** More samples *)

Module Sample.

(** A compiler whose schemas already come in order. *)
Definition schemaOf (path : string) : JsObject.t string :=
  if String.eqb path "srv/orders.cds" then
    [("Currency", "type"); ("admin.User", "entity");
     ("shop.Item", "entity"); ("shop.Order", "entity")]
  else [].

Definition schemaOf_enumerated (path : string) : JsObject.enumerated (schemaOf path).
Proof. unfold schemaOf. repeat case_match; vm_compute; reflexivity. Defined.




Definition collaborators : Collaborators := {|
  CsnDef := string;
  CsnRest := unit;
  cds_load_json := λ path, mkICsn (schemaOf path) tt;
  cds_load_json_enumerated := schemaOf_enumerated;
  JSON_stringify := λ csn, Demo.lines (JsObject.keys (csn_definitions csn));
  localeCompare := Demo.compare3;
  Defs := Demo.Definitions;
  CDSParser_parse := Demo.parse;
  Namespace_getTypes := Demo.getTypes;
  Settings := unit;
  SourceFile := list string;
  Project_createSourceFile := λ _ _, [];
  SourceFile_formatText := λ src, src;
  SourceFile_getFullText := Demo.lines;
  Namespace_generateCode := λ ns src types, src ++ Demo.emit ns types;
  PrettierFormatter_init := λ _, mkFormatter tt (λ text, text);
  NoopFormatter_init := λ _, mkFormatter tt (λ text, text);
|}.

(** One file, no dump, no watch, into a directory that is not there. *)
Definition lostOptions : IOptions :=
  IOptions.mk "srv/orders.cds" "out/orders.ts" "I" false false false false None false.

(** The sample options with other debug, folder and watch settings. *)
Definition otherFlags : IOptions :=
  IOptions.mk "srv/orders.cds" "gen/orders.ts" "I" true true true true (Some "docs") false.

Definition docsOptions : IOptions :=
  IOptions.mk "" "" "I" false false false false (Some "docs") false.

(** The sample listings, and a folder of notes, on an empty disk. *)
Definition bareWorld : World :=
  mkWorld ∅
    (λ dir, if String.eqb dir "docs" then ["README.md"; "notes.txt"; ".cds"]
            else dirents Demo.world dir)
    [].

End Sample.

(** * Properties *)

(** ** The process monad *)

Lemma bind_Done {A B : Type} (m : Proc A) (k : A → Proc B) (w w' : World) (a : A) :
  m w = Done a w' → (m ≫= k) w = k a w'.
Proof. intros E. unfold mbind, Proc_bind. by rewrite E. Qed.

Lemma bind_Exit {A B : Type} (m : Proc A) (k : A → Proc B) (w w' : World) (c : Z) :
  m w = Exit c w' → (m ≫= k) w = Exit c w'.
Proof. intros E. unfold mbind, Proc_bind. by rewrite E. Qed.

Lemma bind_ret_tt (m : Proc unit) (w : World) : (m ;; mret tt) w = m w.
Proof.
  unfold mbind, Proc_bind, mret, Proc_ret.
  destruct (m w) as [[] w'|c w']; reflexivity.
Qed.

(** ** [generateCode] *)

Section GenerateCodeFacts.
Context {Defs : Type}.
Variable getTypes : Namespace Defs → list string.

Lemma foldl_append {Unit : Type} (f : Namespace Defs → list Unit)
    (l : list (Namespace Defs)) (doc : list Unit) :
  foldl (λ source ns, source ++ f ns) doc l = doc ++ concat (map f l).
Proof.
  revert doc. induction l as [|n l IH]; intros doc; simpl.
  - by rewrite app_nil_r.
  - rewrite IH. by rewrite <- app_assoc.
Qed.

Lemma concat_singletons {B : Type} (ts : B) (l : list (Namespace Defs)) :
  concat (map (λ ns, [(ns, ts)]) l) = map (λ ns, (ns, ts)) l.
Proof. induction l as [|x xs IH]; simpl; [reflexivity|by f_equal]. Qed.

Lemma collectNamespaces_order (parsed : IParsed Defs) (interfacePrefix : string) :
  collectNamespaces parsed interfacePrefix =
    map (namespaceOf interfacePrefix) (default [] (parsed_namespaces parsed))
    ++ map (namespaceOf interfacePrefix) (default [] (parsed_services parsed))
    ++ match parsed_definitions parsed with
       | Some defs => [new_Namespace defs interfacePrefix None]
       | None => []
       end.
Proof.
  unfold collectNamespaces.
  destruct (parsed_namespaces parsed), (parsed_services parsed),
    (parsed_definitions parsed); simpl;
    rewrite ?app_nil_r, <- ?app_assoc; reflexivity.
Qed.

(** C1. The document after [generateCode] is the document before it,
    followed by what the namespace groups emit, in the order the
    parser delivered them, then by what the service groups emit, then
    by what the root group of unprefixed definitions emits. *)
Theorem generateCode_namespaces_services_root {Unit : Type}
    (emit : Namespace Defs → list string → list Unit)
    (doc : list Unit) (parsed : IParsed Defs) (interfacePrefix : string) :
  let types := concat (map getTypes (collectNamespaces parsed interfacePrefix)) in
  let group (ns : Namespace Defs) := emit ns types in
  generateCode getTypes (Namespace_generateCode_append emit)
    doc parsed interfacePrefix
  = doc
    ++ concat (map (λ n, group (namespaceOf interfacePrefix n))
                 (default [] (parsed_namespaces parsed)))
    ++ concat (map (λ s, group (namespaceOf interfacePrefix s))
                 (default [] (parsed_services parsed)))
    ++ match parsed_definitions parsed with
       | Some defs => group (new_Namespace defs interfacePrefix None)
       | None => []
       end.
Proof.
  intros types group. unfold generateCode, Namespace_generateCode_append.
  fold types. rewrite (foldl_append group).
  rewrite collectNamespaces_order.
  rewrite !map_app, !concat_app, !map_map. f_equal. f_equal. f_equal.
  destruct (parsed_definitions parsed); simpl; by rewrite ?app_nil_r.
Qed.

(** C2. [generateCode] calls [Namespace.generateCode] once per group,
    namespaces, services and root alike, and every call receives the
    same type list: the concatenation of [getTypes()] over all the
    groups of the file. *)
Theorem generateCode_passes_all_types
    (parsed : IParsed Defs) (interfacePrefix : string) :
  let groups :=
    map (namespaceOf interfacePrefix) (default [] (parsed_namespaces parsed))
    ++ map (namespaceOf interfacePrefix) (default [] (parsed_services parsed))
    ++ match parsed_definitions parsed with
       | Some defs => [new_Namespace defs interfacePrefix None]
       | None => []
       end in
  generateCode getTypes Namespace_generateCode_logged [] parsed interfacePrefix
  = map (λ ns, (ns, concat (map getTypes groups))) groups.
Proof.
  intros groups. unfold generateCode, Namespace_generateCode_logged.
  rewrite collectNamespaces_order. fold groups.
  rewrite (foldl_append (λ ns, [(ns, concat (map getTypes groups))])). simpl.
  apply concat_singletons.
Qed.

End GenerateCodeFacts.

(** ** [replaceExt] *)

Section FileUtilsFacts.
Context `{PathApi}.

Lemma slice_of_prefix2 (a b : ascii) (s : string) :
  Js.startsWith s (String a (String b EmptyString)) = true →
  Js.slice s 0 2 = String a (String b EmptyString).
Proof.
  unfold Js.startsWith, Js.slice. simpl.
  destruct s as [|c [|d s']]; simpl.
  - discriminate.
  - destruct (ascii_dec a c); discriminate.
  - destruct (ascii_dec a c) as [->|]; [|discriminate].
    destruct (ascii_dec b d) as [->|]; [|discriminate].
    by destruct s'.
Qed.

Lemma startsWithSingleDot_true (s : string) :
  Js.startsWith s "./" = true ∨ Js.startsWith s ("." +:+ sepString) = true →
  startsWithSingleDot s = true.
Proof.
  unfold startsWithSingleDot. intros [E|E].
  - rewrite (slice_of_prefix2 _ _ _ E).
    rewrite (proj2 (String.eqb_eq "./" "./") eq_refl). apply orb_true_r.
  - change ("." +:+ sepString) with (String "."%char (String path_sep EmptyString)) in *.
    rewrite (slice_of_prefix2 _ _ _ E). by rewrite String.eqb_refl.
Qed.

Lemma replaceExt_string (s ext : string) :
  replaceExt (JsString s) ext = JsString (replaceExtS s ext).
Proof.
  unfold replaceExtS, replaceExt.
  destruct (Js.length s =? 0); [reflexivity|].
  destruct (startsWithSingleDot s); reflexivity.
Qed.

(** C10. On a non-empty string that starts with [./] or with [.] and
    the platform separator, [replaceExt] answers a string that starts
    with [.] and the platform separator; a value that is not a string,
    and the empty string, come back as they are. *)
Theorem replaceExt_keeps_relative_prefix :
  (∀ s ext : string,
      s ≠ "" →
      Js.startsWith s "./" = true ∨ Js.startsWith s ("." +:+ sepString) = true →
      ∃ rest : string,
        replaceExt (JsString s) ext = JsString ("." +:+ sepString +:+ rest))
  ∧ (∀ (v : JsValue) (ext : string),
      typeof v ≠ "string" ∨ v = JsString "" → replaceExt v ext = v).
Proof.
  split.
  - intros s ext Hne Hdot. unfold replaceExt.
    destruct s as [|c s']; [done|].
    replace (Js.length (String c s') =? 0) with false
      by (symmetry; apply Z.eqb_neq; unfold Js.length; simpl; lia).
    rewrite (startsWithSingleDot_true _ Hdot). eauto.
  - intros v ext [Hty| ->]; [|reflexivity].
    destruct v; simpl in *; done.
Qed.

End FileUtilsFacts.

(** ** Sorting an array, rebuilding an object *)

Section SortFacts.
Context {A : Type} (comparefn : A → A → Z).

Local Abbreviation precedes := (JsArray.precedes comparefn).

Hypothesis comparefn_total : ∀ a b, comparefn a b ≤ 0 ∨ comparefn b a ≤ 0.
Hypothesis comparefn_trans :
  ∀ a b c, comparefn a b ≤ 0 → comparefn b c ≤ 0 → comparefn a c ≤ 0.

Lemma insert_Permutation (x : A) (l : list A) :
  JsArray.insert comparefn x l ≡ₚ x :: l.
Proof.
  induction l as [|y l IH]; simpl; [reflexivity|].
  destruct (comparefn x y <=? 0); [reflexivity|].
  rewrite IH. apply perm_swap.
Qed.

Lemma sort_Permutation (l : list A) : JsArray.sort comparefn l ≡ₚ l.
Proof.
  induction l as [|x l IH]; simpl; [reflexivity|].
  unfold JsArray.sort in *. simpl. rewrite insert_Permutation. by rewrite IH.
Qed.



End SortFacts.

Section ObjectFacts.
Context {V : Type}.

Local Abbreviation named := JsObject.named.

Lemma has_false (o : JsObject.t V) (k : string) :
  k ∉ JsObject.keys o → JsObject.has o k = false.
Proof.
  induction o as [|[k' v'] o IH]; simpl; [reflexivity|].
  intros Hk. apply not_elem_of_cons in Hk as [Hne Hk].
  rewrite (IH Hk), orb_false_r. apply String.eqb_neq. congruence.
Qed.


Lemma insertIndex_Permutation (o : JsObject.t V) (i : N) (k : string) (v : V) :
  JsObject.insertIndex o i k v ≡ₚ (k, v) :: o.
Proof.
  induction o as [|[k' v'] o IH]; simpl; [reflexivity|].
  destruct (JsObject.arrayIndex k') as [j|]; [|reflexivity].
  destruct (j <? i)%N; [|reflexivity].
  rewrite IH. apply perm_swap.
Qed.

Lemma set_fresh_Permutation (o : JsObject.t V) (k : string) (v : V) :
  k ∉ JsObject.keys o → JsObject.set o k v ≡ₚ o ++ [(k, v)].
Proof.
  intros Hk. unfold JsObject.set. rewrite (has_false _ _ Hk).
  destruct (JsObject.arrayIndex k) as [i|]; [|reflexivity].
  rewrite insertIndex_Permutation. by rewrite Permutation_app_comm.
Qed.

Lemma fresh_key (o es : list (string * V)) (k : string) (v : V) :
  NoDup (map fst (o ++ (k, v) :: es)) → k ∉ JsObject.keys o.
Proof.
  unfold JsObject.keys. rewrite map_app. simpl.
  intros (_ & Hdisj & _)%NoDup_app Hin. apply (Hdisj k Hin). left.
Qed.



Lemma fromEntries_from_Permutation (o es : list (string * V)) :
  NoDup (map fst (o ++ es)) →
  foldl (λ o e, JsObject.set o (fst e) (snd e)) o es ≡ₚ o ++ es.
Proof.
  revert o. induction es as [|[k v] es IH]; intros o Hnd; simpl.
  - by rewrite app_nil_r.
  - pose proof (set_fresh_Permutation o k v (fresh_key _ _ _ _ Hnd)) as Hset.
    rewrite IH.
    + rewrite Hset. by rewrite <- app_assoc.
    + rewrite Hset. by rewrite <- app_assoc.
Qed.

(** With distinct keys of any kind, they are those entries in some
    order. *)
Lemma fromEntries_Permutation (es : list (string * V)) :
  NoDup (map fst es) → JsObject.entries (JsObject.fromEntries es) ≡ₚ es.
Proof. intros Hnd. exact (fromEntries_from_Permutation [] es Hnd). Qed.

End ObjectFacts.

(** ** The driver *)

Section ProgramFacts.
Context `{PathApi} `{Collaborators}.

(** *** Loading and sorting *)


(** *** Writing *)

Lemma writeSource_ok (filepath source : string) (w : World) :
  Fs.exists_ w (path_dirname filepath) = true →
  writeSource filepath source w =
    Done tt (record (ConsoleLog ("Wrote types to '" +:+ filepath +:+ "'"))
               (withFile filepath source w)).
Proof.
  intros E. unfold writeSource, mbind, Proc_bind, Fs.existsSync. by rewrite E.
Qed.

Lemma writeSource_fail (filepath source : string) (w : World) :
  Fs.exists_ w (path_dirname filepath) = false →
  writeSource filepath source w =
    Exit (-1)
      (record (ConsoleError ("Unable to write types: '" +:+ path_dirname filepath
                             +:+ "' is not a valid directory")) w).
Proof.
  intros E. unfold writeSource, mbind, Proc_bind, Fs.existsSync. by rewrite E.
Qed.

Lemma writes_app (evs evs' : list Event) : writes (evs ++ evs') = writes evs ++ writes evs'.
Proof. unfold writes. apply omap_app. Qed.

Lemma infos_app (evs evs' : list Event) : infos (evs ++ evs') = infos evs ++ infos evs'.
Proof. unfold infos. apply omap_app. Qed.


(** *** One run *)

Lemma processFile_unfold (options : IOptions) (w : World) :
  processFile options w =
    writeSource (IOptions.output options) (generatedText options)
      (beforeWrite options w).
Proof.
  unfold processFile, beforeWrite, generatedText, formatterOf, loadedJson,
    loadCdsAndConvertToJSON, createFormatter, when,
    Fs.writeFileSync, Fs.writeFile, Fs.existsSync, Fs.removeSync, console.info,
    mbind, Proc_bind, mret, Proc_ret.
  destruct (IOptions.json options), (IOptions.sort options); simpl;
    match goal with
    | |- context [Fs.exists_ ?w' ?p] => destruct (Fs.exists_ w' p)
    end; reflexivity.
Qed.


Lemma exists_record (e : Event) (w : World) (p : string) :
  Fs.exists_ (record e w) p = Fs.exists_ w p.
Proof. reflexivity. Qed.

Lemma exists_withFile (q c : string) (w : World) (p : string) :
  Fs.exists_ w p = true → Fs.exists_ (withFile q c w) p = true.
Proof.
  unfold Fs.exists_, withFile. simpl. intros E%bool_decide_eq_true.
  apply bool_decide_eq_true. rewrite lookup_insert. case_decide; eauto.
Qed.

Lemma exists_withoutPath (q : string) (w : World) (p : string) :
  p ≠ q → Fs.exists_ (withoutPath q w) p = Fs.exists_ w p.
Proof.
  intros Hne. unfold Fs.exists_, withoutPath. simpl.
  by rewrite lookup_delete_ne.
Qed.

Lemma exists_beforeWrite (options : IOptions) (w : World) (p : string) :
  p ≠ IOptions.output options →
  Fs.exists_ w p = true → Fs.exists_ (beforeWrite options w) p = true.
Proof.
  intros Hne E. unfold beforeWrite.
  set (w1 := record _ w).
  assert (Fs.exists_ w1 p = true) as E1 by exact E.
  set (w2 := if IOptions.json options then _ else w1).
  assert (Fs.exists_ w2 p = true) as E2.
  { unfold w2. destruct (IOptions.json options); [|exact E1].
    by apply exists_withFile. }
  destruct (Fs.exists_ w2 (IOptions.output options)); [|exact E2].
  by rewrite exists_withoutPath.
Qed.

(** The journal of a run: the announcement, the dump if asked for,
    the removal of an old output, then what [writeSource] adds. *)
Lemma journal_beforeWrite (options : IOptions) (w : World) :
  ∃ removed : list Event,
    (removed = [] ∨ removed = [FsRemove (IOptions.output options)])
    ∧ journal (beforeWrite options w) =
        journal w
        ++ [ConsoleInfo ("Processing file " +:+ IOptions.cds options)]
        ++ (if IOptions.json options then [jsonDump options] else [])
        ++ removed.
Proof.
  unfold beforeWrite.
  set (w1 := record _ w).
  set (w2 := if IOptions.json options then _ else w1).
  assert (journal w2 = journal w
            ++ [ConsoleInfo ("Processing file " +:+ IOptions.cds options)]
            ++ (if IOptions.json options then [jsonDump options] else [])) as E2.
  { unfold w2. destruct (IOptions.json options); simpl;
      rewrite <- ?app_assoc; reflexivity. }
  destruct (Fs.exists_ w2 (IOptions.output options)).
  - exists [FsRemove (IOptions.output options)]. split; [by right|].
    simpl. rewrite E2. by rewrite <- ?app_assoc.
  - exists []. split; [by left|]. rewrite E2. by rewrite ?app_nil_r.
Qed.

(** A run whose output directory is there completes, and leaves the
    generated text at the output path. *)
Lemma processFile_completes (options : IOptions) (w : World) :
  let out := IOptions.output options in
  path_dirname out ≠ out →
  Fs.exists_ w (path_dirname out) = true →
  ∃ w', processFile options w = Done tt w'
        ∧ fs w' !! out = Some (File (generatedText options))
        ∧ dirents w' = dirents w
        ∧ infos (journal w') =
            infos (journal w) ++ ["Processing file " +:+ IOptions.cds options]
        ∧ writes (journal w') = writes (journal w) ++ runWrites options
        ∧ ∀ p, Fs.exists_ w p = true → Fs.exists_ w' p = true.
Proof.
  intros out Hne Hdir.
  rewrite processFile_unfold.
  rewrite writeSource_ok by (by apply exists_beforeWrite).
  eexists. split; [reflexivity|].
  destruct (journal_beforeWrite options w) as (removed & Hrem & Hj).
  split; [|split; [|split; [|split]]].
  - simpl. apply lookup_insert_eq.
  - unfold beforeWrite. simpl.
    repeat match goal with |- context [if ?b then _ else _] => destruct b end;
      reflexivity.
  - simpl. rewrite Hj. rewrite !infos_app. simpl.
    destruct (IOptions.json options), Hrem as [-> | ->]; simpl;
      by rewrite ?app_nil_r.
  - simpl. rewrite Hj. rewrite !writes_app. unfold runWrites, jsonDump. simpl.
    destruct (IOptions.json options), Hrem as [-> | ->]; simpl;
      by rewrite <- ?app_assoc.
  - intros p Hp. rewrite exists_record.
    destruct (decide (p = out)) as [->|Hpo].
    + unfold Fs.exists_, withFile. simpl. apply bool_decide_eq_true.
      rewrite lookup_insert_eq. eauto.
    + apply exists_withFile. by apply exists_beforeWrite.
Qed.


(** *** Folder mode *)

Lemma processFiles_loop (options : IOptions) (folder : string)
    (listing : list string) (w : World) :
  forOf listing (λ filePath,
    if String.eqb (path_extname filePath) ".cds" then
      let cds := path_join [folder; filePath] in
      processFile (spreadWith options cds (replaceExtS cds ".ts"))
    else mret tt) w
  = forOf (folderRuns options folder listing) processFile w.
Proof.
  revert w. induction listing as [|f listing IH]; intros w; [reflexivity|].
  unfold folderRuns. rewrite filter_cons. simpl.
  destruct (String.eqb (path_extname f) ".cds") eqn:E.
  - apply String.eqb_eq in E. rewrite decide_True by exact E. simpl.
    unfold mbind, Proc_bind.
    destruct (processFile _ w) as [[] w1|c w1]; [apply IH|reflexivity].
  - apply String.eqb_neq in E. rewrite decide_False by exact E.
    unfold mbind, Proc_bind, mret, Proc_ret. apply IH.
Qed.

Lemma forOf_processFile_completes (runs : list IOptions) (w : World) :
  (∀ o, o ∈ runs →
     path_dirname (IOptions.output o) ≠ IOptions.output o
     ∧ Fs.exists_ w (path_dirname (IOptions.output o)) = true) →
  ∃ w', forOf runs processFile w = Done tt w'
        ∧ dirents w' = dirents w
        ∧ infos (journal w') =
            infos (journal w)
            ++ map (λ o, "Processing file " +:+ IOptions.cds o) runs
        ∧ writes (journal w') = writes (journal w) ++ concat (map runWrites runs).
Proof.
  revert w. induction runs as [|o runs IH]; intros w Hdirs.
  - exists w. simpl. by rewrite !app_nil_r.
  - destruct (Hdirs o) as [Hne Hdir]; [apply list_elem_of_here|].
    destruct (processFile_completes o w Hne Hdir)
      as (w1 & E1 & _ & D1 & I1 & W1 & K1).
    destruct (IH w1) as (w' & E' & D' & I' & W').
    { intros o' Hin. destruct (Hdirs o') as [Hne' Hdir'].
      - by apply list_elem_of_further.
      - split; [exact Hne'|by apply K1]. }
    exists w'. split; [|split; [|split]].
    + simpl. by rewrite (bind_Done _ _ _ _ _ E1).
    + by rewrite D', D1.
    + rewrite I', I1. simpl. by rewrite <- app_assoc.
    + rewrite W', W1. simpl. by rewrite <- !app_assoc.
Qed.

(** C5. Folder mode makes one run per entry of the directory listing
    whose extension is [.cds], in listing order, and none for the
    others; the run for an entry reads the joined folder/entry path
    and writes to that path with [.ts] in place of its extension; and
    what a run writes is the text generated from its own file (and
    its dump), whatever the other entries are. The runs complete when
    the directories of their outputs are there. *)
Theorem folder_mode_runs (options : IOptions) (folder : string) (w : World) :
  IOptions.folder options = Some folder →
  let runs := folderRuns options folder (dirents w folder) in
  processFiles options w = forOf runs processFile w
  ∧ map IOptions.cds runs =
      map (λ filePath, path_join [folder; filePath])
        (filter (λ filePath, path_extname filePath = ".cds") (dirents w folder))
  ∧ (∀ o, o ∈ runs →
       replaceExt (JsString (IOptions.cds o)) ".ts" = JsString (IOptions.output o))
  ∧ ((∀ o, o ∈ runs →
        path_dirname (IOptions.output o) ≠ IOptions.output o
        ∧ Fs.exists_ w (path_dirname (IOptions.output o)) = true) →
     ∃ w', processFiles options w = Done tt w'
           ∧ infos (journal w') =
               infos (journal w)
               ++ map (λ o, "Processing file " +:+ IOptions.cds o) runs
           ∧ writes (journal w') =
               writes (journal w) ++ concat (map runWrites runs)).
Proof.
  intros Hfolder runs.
  assert (processFiles options w = forOf runs processFile w) as Hloop.
  { unfold processFiles. rewrite Hfolder. simpl.
    unfold mbind at 1, Proc_bind, Fs.readdirSync. apply processFiles_loop. }
  split; [exact Hloop|]. split; [|split].
  - unfold runs, folderRuns. rewrite map_map. reflexivity.
  - intros o Hin. unfold runs, folderRuns in Hin.
    apply list_elem_of_fmap in Hin as (f & -> & _). simpl.
    apply replaceExt_string.
  - intros Hdirs. rewrite Hloop.
    destruct (forOf_processFile_completes runs w Hdirs) as (w' & E & _ & I & W).
    eauto.
Qed.

(** *** Watch mode *)

Lemma createWatcherWith_watching (this_processFile : IOptions → Proc unit)
    (options : IOptions) :
  IOptions.watch options = true →
  ∃ watcher : FSWatcher,
    (∀ w0, ∃ w0', createWatcherWith this_processFile options w0
                  = Done (Some watcher) w0')
    ∧ listeners watcher =
        (if Js.truthy (IOptions.folder options)
         then [("add", λ filePath,
                  console.info ("File " +:+ filePath +:+ " has been added!");;
                  this_processFile
                    (spreadWith options filePath (replaceExtS filePath ".ts")))]
         else [])
        ++ [("change", λ filePath,
               console.info ("File " +:+ filePath +:+ " has been changed!");;
               this_processFile
                 (spreadWith options filePath (replaceExtS filePath ".ts")))].
Proof.
  intros Hwatch. unfold createWatcherWith. rewrite Hwatch. simpl.
  eexists. split.
  - intros w0. eexists. reflexivity.
  - destruct (Js.truthy (IOptions.folder options)); reflexivity.
Qed.

Lemma createWatcherWith_inv (this_processFile : IOptions → Proc unit)
    (options : IOptions) (watcher : FSWatcher) (w0 w0' : World) :
  createWatcherWith this_processFile options w0 = Done (Some watcher) w0' →
  IOptions.watch options = true
  ∧ ∀ watcher',
      (∀ w, ∃ w', createWatcherWith this_processFile options w
                  = Done (Some watcher') w') →
      watcher' = watcher.
Proof.
  intros E. destruct (IOptions.watch options) eqn:Hwatch.
  - split; [reflexivity|]. intros watcher' Hw'.
    destruct (Hw' w0) as (w1 & E1). rewrite E in E1. by injection E1.
  - unfold createWatcherWith in E. rewrite Hwatch in E. discriminate.
Qed.

Lemma createWatcher_watching (options : IOptions) :
  IOptions.watch options = true →
  ∃ watcher : FSWatcher,
    (∀ w0, ∃ w0', createWatcher options w0 = Done (Some watcher) w0')
    ∧ listeners watcher =
        (if Js.truthy (IOptions.folder options)
         then [("add", λ filePath,
                  console.info ("File " +:+ filePath +:+ " has been added!");;
                  rerun options filePath)]
         else [])
        ++ [("change", λ filePath,
               console.info ("File " +:+ filePath +:+ " has been changed!");;
               rerun options filePath)].
Proof. apply (createWatcherWith_watching processFile). Qed.

Lemma createWatcher_inv (options : IOptions) (watcher : FSWatcher) (w0 w0' : World) :
  createWatcher options w0 = Done (Some watcher) w0' →
  IOptions.watch options = true
  ∧ ∀ watcher', (∀ w, ∃ w', createWatcher options w = Done (Some watcher') w') →
                watcher' = watcher.
Proof. apply (createWatcherWith_inv processFile). Qed.

(** C7, as the code has it. With watch on, every changed event
    re-runs the pipeline for the file it names; an added event does so
    when the watch is on a folder, and is not listened to when the
    watch is on a single file; no other event has a listener. *)
Theorem watcher_reruns_on_change_and_folder_add (options : IOptions) :
  IOptions.watch options = true →
  ∃ watcher : FSWatcher,
    (∀ w0, ∃ w0', createWatcher options w0 = Done (Some watcher) w0')
    ∧ (∀ filePath w,
         chokidar.emit watcher "change" filePath w
         = (console.info ("File " +:+ filePath +:+ " has been changed!");;
            rerun options filePath) w)
    ∧ (Js.truthy (IOptions.folder options) = true →
       ∀ filePath w,
         chokidar.emit watcher "add" filePath w
         = (console.info ("File " +:+ filePath +:+ " has been added!");;
            rerun options filePath) w)
    ∧ (Js.truthy (IOptions.folder options) = false →
       ∀ filePath w, chokidar.emit watcher "add" filePath w = Done tt w)
    ∧ (∀ event, event ≠ "add" → event ≠ "change" →
       ∀ filePath w, chokidar.emit watcher event filePath w = Done tt w).
Proof.
  intros Hwatch.
  destruct (createWatcher_watching options Hwatch) as (watcher & Hw & Hl).
  exists watcher. split; [exact Hw|].
  unfold chokidar.emit. rewrite Hl.
  destruct (Js.truthy (IOptions.folder options)); cbn [app forOf fst snd];
    change (String.eqb "add" "change") with false;
    change (String.eqb "change" "change") with true;
    change (String.eqb "add" "add") with true;
    change (String.eqb "change" "add") with false;
    cbv iota; (split; [|split; [|split]]);
    try (intros ?; discriminate).
  - intros filePath w. unfold mbind at 1, Proc_bind, mret at 1, Proc_ret.
    apply bind_ret_tt.
  - intros _ filePath w. unfold mbind at 1, Proc_bind.
    destruct ((console.info _;; rerun options filePath) w) as [[] w1|c w1];
      reflexivity.
  - intros event Ha Hc filePath w.
    apply String.eqb_neq in Ha, Hc.
    rewrite String.eqb_sym in Ha. rewrite String.eqb_sym in Hc.
    by rewrite Ha, Hc.
  - intros filePath w. apply bind_ret_tt.
  - reflexivity.
  - intros event Ha Hc filePath w.
    apply String.eqb_neq in Hc. rewrite String.eqb_sym in Hc.
    by rewrite Hc.
Qed.

(** C8. Whatever listener the watcher got, and whatever the method it
    calls does, the options object it hands to [processFile] for an
    event is a copy of the options the watcher was created with:
    [cds] is the path of the event; [output] is what [replaceExt] makes
    of that path and [.ts], that is, for a non-empty path, its
    directory joined with its base name without the extension followed
    by [.ts] (behind [.] and the separator when the path started so);
    and every other field is as it was. *)
Theorem watcher_rerun_options (options : IOptions) (event : string) (filePath : string) :
  ∃ (newOptions : IOptions) (msg : string),
    (∀ (this_processFile : IOptions → Proc unit) (watcher : FSWatcher)
       (w0 w0' : World) (listener : string → Proc unit),
        createWatcherWith this_processFile options w0 = Done (Some watcher) w0' →
        (event, listener) ∈ listeners watcher →
        ∀ w, listener filePath w = (console.info msg;; this_processFile newOptions) w)
    ∧ IOptions.cds newOptions = filePath
    ∧ replaceExt (JsString filePath) ".ts" = JsString (IOptions.output newOptions)
    ∧ (filePath ≠ "" →
       IOptions.output newOptions =
         (if startsWithSingleDot filePath then "." +:+ sepString else "")
         +:+ path_join [path_dirname filePath;
                         path_basename filePath (path_extname filePath) +:+ ".ts"])
    ∧ IOptions.prefix newOptions = IOptions.prefix options
    ∧ IOptions.json newOptions = IOptions.json options
    ∧ IOptions.debug newOptions = IOptions.debug options
    ∧ IOptions.format newOptions = IOptions.format options
    ∧ IOptions.sort newOptions = IOptions.sort options
    ∧ IOptions.folder newOptions = IOptions.folder options
    ∧ IOptions.watch newOptions = IOptions.watch options.
Proof.
  exists (spreadWith options filePath (replaceExtS filePath ".ts")).
  exists ("File " +:+ filePath +:+
          (if String.eqb event "add" then " has been added!" else " has been changed!")).
  split; [|split; [reflexivity|split; [apply replaceExt_string|split]]].
  - intros this_processFile watcher w0 w0' listener Hcreate Hin w.
    destruct (createWatcherWith_inv _ _ _ _ _ Hcreate) as [Hwatch Huniq].
    destruct (createWatcherWith_watching this_processFile options Hwatch)
      as (watcher' & Hw' & Hl).
    rewrite (Huniq _ Hw') in Hl. rewrite Hl in Hin.
    apply elem_of_app in Hin as [Hin|Hin].
    + destruct (Js.truthy (IOptions.folder options));
        [|by apply elem_of_nil in Hin].
      apply list_elem_of_singleton in Hin. injection Hin as -> ->. reflexivity.
    + apply list_elem_of_singleton in Hin. injection Hin as -> ->. reflexivity.
  - intros Hne. simpl. unfold replaceExtS, replaceExt.
    destruct filePath as [|c rest]; [done|].
    replace (Js.length (String c rest) =? 0) with false
      by (symmetry; apply Z.eqb_neq; unfold Js.length; simpl; lia).
    destruct (startsWithSingleDot (String c rest)); reflexivity.
  - repeat split.
Qed.

End ProgramFacts.

(** * Concrete runs *)

Section Concrete.
Local Existing Instance posixPath.
Local Existing Instance Demo.collaborators.

(** ** Node's [path] and [replaceExt] on sample paths *)

Example extname_samples :
  map Posix.extname ["orders.cds"; ".cds"; "x/y.tar.gz"; "a."; ".."; "a/b.c/"; "abc"]
  = [".cds"; ""; ".gz"; "."; ""; ".c"; ""].
Proof. vm_compute. reflexivity. Qed.

Example basename_samples :
  [Posix.basename "/x/y.cds" ".cds"; Posix.basename "y.cds" "";
   Posix.basename "a/b/" ""; Posix.basename "a/.cds" ".cds";
   Posix.basename "aaa.cds/" ".cds"]
  = ["y"; "y.cds"; "b"; ".cds"; "aaa"].
Proof. vm_compute. reflexivity. Qed.

Example dirname_samples :
  map Posix.dirname ["./srv/a.cds"; "a.cds"; "/a"; "/a/b/"; "a//b"; ""]
  = ["./srv"; "."; "/"; "/a"; "a/"; "."].
Proof. vm_compute. reflexivity. Qed.

Example join_samples :
  map Posix.join [["./srv"; "a.cds"]; ["srv/"; "a.cds"]; ["."; "a.ts"];
                  ["../x/./y/.."; "a.ts"]; ["/a/b/../../.."; "c"]; [""; ""]]
  = ["srv/a.cds"; "srv/a.cds"; "a.ts"; "../x/a.ts"; "/c"; "."].
Proof. vm_compute. reflexivity. Qed.

Example replaceExt_samples :
  map (λ p, replaceExt (JsString p) ".ts")
    ["./srv/service.cds"; "srv/service.cds"; "service.cds"; "/abs/x.y.cds"; "srv/.cds"]
  = map JsString
      ["./srv/service.ts"; "srv/service.ts"; "service.ts"; "/abs/x.y.ts"; "srv/.cds.ts"].
Proof. vm_compute. reflexivity. Qed.

(** ** One run, then folder mode, on the sample world *)

Example processFile_sample :
  journal (outcomeWorld (processFile Demo.options Demo.world))
  = [ConsoleInfo "Processing file srv/orders.cds";
     FsWriteFile "gen/orders.ts.json" "Currency;admin.User;shop.Item;shop.Order;";
     FsWriteFile "gen/orders.ts"
       "namespace admin;entity Iadmin.User;end;namespace shop;entity Ishop.Item;entity Ishop.Order;end;type ICurrency;";
     ConsoleLog "Wrote types to 'gen/orders.ts'"].
Proof. vm_compute. reflexivity. Qed.

Example processFiles_sample :
  journal (outcomeWorld (processFiles Demo.folderOptions Demo.world))
  = [ConsoleInfo "Processing file srv/orders.cds";
     FsWriteFile "srv/orders.ts"
       "namespace shop;entity Ishop.Order;entity Ishop.Item;end;namespace admin;entity Iadmin.User;end;type ICurrency;";
     ConsoleLog "Wrote types to 'srv/orders.ts'";
     ConsoleInfo "Processing file srv/people.cds";
     FsWriteFile "srv/people.ts" "namespace hr;entity Ihr.Person;type Ihr.Badge;end;";
     ConsoleLog "Wrote types to 'srv/people.ts'"].
Proof. vm_compute. reflexivity. Qed.

(** ** The sample comparator is consistent *)




(** ** The statements at the samples *)

Lemma replaceExt_keeps_relative_prefix_witness :
  (∃ rest, replaceExt (JsString "./srv/service.cds") ".ts" = JsString ("./" +:+ rest))
  ∧ replaceExt (JsNumber 7) ".ts" = JsNumber 7.
Proof.
  split.
  - assert ("./srv/service.cds" ≠ "") as Hne by discriminate.
    exact (proj1 replaceExt_keeps_relative_prefix "./srv/service.cds" ".ts"
             Hne (or_introl eq_refl)).
  - apply (proj2 replaceExt_keeps_relative_prefix (JsNumber 7) ".ts").
    left. simpl. discriminate.
Defined.





Lemma folder_mode_runs_witness :
  ∃ w',
    processFiles Demo.folderOptions Demo.world = Done tt w'
    ∧ infos (journal w')
      = ["Processing file srv/orders.cds"; "Processing file srv/people.cds"]
    ∧ map fst (writes (journal w')) = ["srv/orders.ts"; "srv/people.ts"].
Proof.
  destruct (folder_mode_runs Demo.folderOptions "srv" Demo.world eq_refl)
    as (_ & _ & _ & Hruns).
  destruct Hruns as (w' & E & Hinfos & Hwrites).
  - intros o Ho. vm_compute in Ho.
    apply elem_of_cons in Ho as [-> | Ho];
      [split; [vm_compute; discriminate|vm_compute; reflexivity]|].
    apply elem_of_cons in Ho as [-> | Ho];
      [split; [vm_compute; discriminate|vm_compute; reflexivity]|].
    by apply elem_of_nil in Ho.
  - exists w'. split; [exact E|]. split.
    + rewrite Hinfos. vm_compute. reflexivity.
    + rewrite Hwrites. vm_compute. reflexivity.
Defined.

Lemma watcher_reruns_on_change_and_folder_add_witness :
  ∃ watcher : FSWatcher,
    (∀ w0, ∃ w0', createWatcher Demo.options w0 = Done (Some watcher) w0')
    ∧ (∀ filePath w,
         chokidar.emit watcher "change" filePath w
         = (console.info ("File " +:+ filePath +:+ " has been changed!");;
            rerun Demo.options filePath) w)
    ∧ (∀ filePath w, chokidar.emit watcher "add" filePath w = Done tt w).
Proof.
  destruct (watcher_reruns_on_change_and_folder_add Demo.options eq_refl)
    as (watcher & Hw & Hchange & _ & Hadd & _).
  exists watcher. split; [exact Hw|]. split; [exact Hchange|].
  exact (Hadd eq_refl).
Defined.

Lemma watcher_rerun_options_witness :
  ∃ newOptions : IOptions,
    IOptions.cds newOptions = "srv/new.cds"
    ∧ IOptions.output newOptions = "srv/new.ts"
    ∧ IOptions.prefix newOptions = "I"
    ∧ IOptions.folder newOptions = Some "srv".
Proof.
  destruct (watcher_rerun_options Demo.folderOptions "add" "srv/new.cds")
    as (newOptions & msg & _ & Hcds & _ & Hout & Hprefix & _ & _ & _ & _ & Hfolder & _).
  exists newOptions. split; [exact Hcds|]. split.
  - rewrite Hout by discriminate. vm_compute. reflexivity.
  - split; [exact Hprefix|exact Hfolder].
Defined.

(** C7, as the specification words it, fails: the sample options
    watch a single file, so the watcher has no listener for added
    events, and an added event leaves the world as it is, while a
    re-run would at least announce itself. *)
Lemma added_event_ignored_when_watching_one_file :
  IOptions.watch Demo.options = true
  ∧ Js.truthy (IOptions.folder Demo.options) = false
  ∧ ¬ rerunsOnAddedAndChanged Demo.options.
Proof.
  split; [reflexivity|]. split; [reflexivity|].
  intros Hclaim. destruct (Hclaim eq_refl) as [(watcher & Hw & Hadd) _].
  destruct (Hw Demo.world) as (w0' & Hcreate).
  unfold createWatcher, createWatcherWith in Hcreate. simpl in Hcreate.
  injection Hcreate as <- _.
  destruct (Hadd "srv/orders.cds" Demo.world) as (msg & Hrun).
  apply (f_equal (λ o, journal (outcomeWorld o))) in Hrun.
  vm_compute in Hrun. discriminate.
Qed.

End Concrete.

(** * Further properties of the code *)

(** ** [startsWithSingleDot] and [replaceExt] *)

Section FileUtilsMore.
Context `{PathApi}.

Lemma prefix2_of_slice (a b : ascii) (s : string) :
  Js.slice s 0 2 = String a (String b EmptyString) →
  Js.startsWith s (String a (String b EmptyString)) = true.
Proof.
  unfold Js.startsWith, Js.slice. simpl.
  destruct s as [|c [|d s']]; simpl; try discriminate.
  intros E. injection E as -> -> _.
  destruct (ascii_dec a a); [|done]. destruct (ascii_dec b b); [|done].
  by destruct s'.
Qed.

(** X1. [startsWithSingleDot] answers yes exactly for the paths whose
    first two characters are [./] or [.] and the platform separator:
    [../x], [.hidden], [.] and the empty string are not relative in
    its sense. *)
Theorem startsWithSingleDot_iff (fpath : string) :
  startsWithSingleDot fpath = true
  ↔ Js.startsWith fpath "./" = true
    ∨ Js.startsWith fpath ("." +:+ sepString) = true.
Proof.
  split; [|apply startsWithSingleDot_true].
  unfold startsWithSingleDot. intros E. apply orb_true_iff in E as [E|E].
  - right. apply String.eqb_eq in E.
    change ("." +:+ sepString) with (String "."%char (String path_sep EmptyString)) in *.
    by apply prefix2_of_slice.
  - left. apply String.eqb_eq in E. by apply (prefix2_of_slice "." "/").
Qed.

(** X2. [replaceExt] gives back a value of the type it was given: a
    string path always comes back as a string, anything else comes back
    as it is. *)
Theorem replaceExt_preserves_typeof (npath : JsValue) (ext : string) :
  typeof (replaceExt npath ext) = typeof npath
  ∧ (typeof npath ≠ "string" → replaceExt npath ext = npath)
  ∧ (∀ s, npath = JsString s →
       replaceExt npath ext = JsString (replaceExtS s ext)).
Proof.
  split; [|split].
  - destruct npath; try reflexivity.
    rewrite replaceExt_string. reflexivity.
  - intros Hty. destruct npath; simpl in *; done.
  - intros s ->. apply replaceExt_string.
Qed.

End FileUtilsMore.

(** ** [generateCode] at its edges *)

Section GenerateCodeMore.
Context {Defs Source : Type}.
Variable getTypes : Namespace Defs → list string.
Variable Namespace_generateCode : Namespace Defs → Source → list string → Source.

(** X3. When the parser delivered no namespace, no service and no root
    definitions, [generateCode] hands the source file back untouched,
    whatever [Namespace.generateCode] would do. *)
Theorem generateCode_nothing_parsed
    (source : Source) (parsed : IParsed Defs) (interfacePrefix : string) :
  default [] (parsed_namespaces parsed) = [] →
  default [] (parsed_services parsed) = [] →
  parsed_definitions parsed = None →
  generateCode getTypes Namespace_generateCode source parsed interfacePrefix = source.
Proof.
  intros Hns Hsv Hdefs. unfold generateCode.
  rewrite collectNamespaces_order, Hns, Hsv, Hdefs. reflexivity.
Qed.

(** X4. Every group object [generateCode] builds carries the interface
    prefix it was called with; there is one per namespace, one per
    service and one for the root definitions when they are present,
    even if they are empty; and only the root one, the last, has no
    name. *)
Theorem collectNamespaces_prefix_and_names
    (parsed : IParsed Defs) (interfacePrefix : string) :
  let groups := collectNamespaces parsed interfacePrefix in
  Forall (λ ns, ns_interfacePrefix ns = interfacePrefix) groups
  ∧ length groups
    = (length (default [] (parsed_namespaces parsed))
       + length (default [] (parsed_services parsed))
       + match parsed_definitions parsed with Some _ => 1 | None => 0 end)%nat
  ∧ (∀ (i : nat) (ns : Namespace Defs),
       groups !! i = Some ns → ns_name ns = None →
       S i = length groups ∧ parsed_definitions parsed = Some (ns_definitions ns)).
Proof.
  intros groups. unfold groups. rewrite collectNamespaces_order.
  set (named := map (namespaceOf interfacePrefix) (default [] (parsed_namespaces parsed))
                ++ map (namespaceOf interfacePrefix) (default [] (parsed_services parsed))).
  assert (Forall (λ ns, ns_interfacePrefix ns = interfacePrefix ∧ ns_name ns ≠ None) named)
    as Hnamed.
  { unfold named. apply Forall_app. split; apply Forall_forall;
      intros ns (g & -> & _)%list_elem_of_fmap; by split. }
  rewrite app_assoc. fold named.
  split; [|split].
  - apply Forall_app. split.
    + eapply Forall_impl; [exact Hnamed|]. by intros ns [? _].
    + destruct (parsed_definitions parsed); repeat constructor.
  - rewrite length_app. unfold named. rewrite length_app, !length_map.
    destruct (parsed_definitions parsed); reflexivity.
  - intros i ns Hi Hname.
    destruct (decide (i < length named)%nat) as [Hlt|Hge%not_lt].
    + exfalso. rewrite lookup_app_l in Hi by exact Hlt.
      rewrite Forall_forall in Hnamed.
      apply list_elem_of_lookup_2 in Hi. by destruct (Hnamed ns Hi).
    + rewrite lookup_app_r in Hi by exact Hge.
      destruct (parsed_definitions parsed) as [defs|]; [|by destruct (i - length named)%nat].
      destruct (i - length named)%nat eqn:Ei; [|by destruct n].
      injection Hi as <-. rewrite length_app. simpl. split; [lia|reflexivity].
Qed.

End GenerateCodeMore.

(** ** The sort option, further *)

Section SortMore.
Context {A : Type} (comparefn : A → A → Z).

Lemma sort_sorted (l : list A) :
  StronglySorted (JsArray.precedes comparefn) l → JsArray.sort comparefn l = l.
Proof.
  induction 1 as [|x l Hl IH Hx]; [reflexivity|].
  unfold JsArray.sort in *. simpl. rewrite IH.
  destruct Hx as [|y l' Hxy _]; [reflexivity|]. simpl.
  unfold JsArray.precedes in Hxy. apply Z.leb_le in Hxy. by rewrite Hxy.
Qed.

End SortMore.

Section PropertyFacts.
Context {V : Type}.

Lemma propertyOf_None (o : JsObject.t V) (k : string) :
  k ∉ JsObject.keys o → propertyOf o k = None.
Proof.
  induction o as [|[k' v] o IH]; simpl; [reflexivity|].
  intros Hk. apply not_elem_of_cons in Hk as [Hne Hk].
  destruct (String.eqb k' k) eqn:E; [|by apply IH].
  apply String.eqb_eq in E. congruence.
Qed.

Lemma propertyOf_Permutation (o o' : JsObject.t V) (k : string) :
  o ≡ₚ o' → NoDup (JsObject.keys o) → propertyOf o k = propertyOf o' k.
Proof.
  unfold JsObject.keys.
  induction 1 as [|[k1 v1] l l' Hp IH|[k1 v1] [k2 v2] l|l l' l'' Hp IH Hp' IH'];
    intros Hnd; simpl in *.
  - reflexivity.
  - apply NoDup_cons in Hnd as [_ Hnd]. destruct (String.eqb k1 k); auto.
  - apply NoDup_cons in Hnd as [Hin _]. apply not_elem_of_cons in Hin as [Hne _].
    destruct (String.eqb k2 k) eqn:E2, (String.eqb k1 k) eqn:E1; try reflexivity.
    apply String.eqb_eq in E1, E2. congruence.
  - rewrite IH by exact Hnd. apply IH'.
    by rewrite <- Hp.
Qed.

End PropertyFacts.

Section LoadMore.
Context `{Collaborators}.

Lemma rebuilt_entries (path : string) :
  NoDup (JsObject.keys (csn_definitions (cds_load_json path))) →
  JsObject.fromEntries
    (JsArray.sort (λ key value, localeCompare (fst key) (fst value))
       (JsObject.entries (csn_definitions (cds_load_json path))))
  ≡ₚ csn_definitions (cds_load_json path).
Proof.
  intros Hnd.
  etrans; [|apply (sort_Permutation
                     (λ key value : string * CsnDef,
                        localeCompare (fst key) (fst value)))].
  apply (fromEntries_Permutation
           (JsArray.sort (λ key value : string * CsnDef,
                            localeCompare (fst key) (fst value))
              (JsObject.entries (csn_definitions (cds_load_json path))))).
  by rewrite sort_Permutation.
Qed.

(** X5. The sort option changes nothing in a schema whose definitions
    already come in [localeCompare] order: the object the run goes on
    with is the one the compiler delivered. *)
Theorem sort_option_keeps_sorted_schema (path : string) (w : World) :
  NoDup (JsObject.keys (csn_definitions (cds_load_json path))) →
  StronglySorted byQualifiedName
    (JsObject.entries (csn_definitions (cds_load_json path))) →
  loadCdsAndConvertToJSON path true w = Done (cds_load_json path) w.
Proof.
  intros Hnd Hsorted. unfold loadCdsAndConvertToJSON, mret, Proc_ret.
  rewrite (sort_sorted _ _ Hsorted).
  rewrite (cds_load_json_enumerated path).
  by destruct (cds_load_json path).
Qed.

(** X6. Whatever [localeCompare] answers, consistent or not, the sort
    option loses, adds and alters no definition: the entries after it
    are a permutation of the entries before it, and every qualified
    name still leads to the definition it led to. *)
Theorem sort_option_never_alters_definitions (path : string) (w : World) :
  NoDup (JsObject.keys (csn_definitions (cds_load_json path))) →
  ∃ result,
    loadCdsAndConvertToJSON path true w = Done result w
    ∧ JsObject.entries (csn_definitions result)
        ≡ₚ JsObject.entries (csn_definitions (cds_load_json path))
    ∧ JsObject.keys (csn_definitions result)
        ≡ₚ JsObject.keys (csn_definitions (cds_load_json path))
    ∧ ∀ name, propertyOf (csn_definitions result) name
              = propertyOf (csn_definitions (cds_load_json path)) name.
Proof.
  intros Hnd. eexists. split; [reflexivity|]. simpl.
  pose proof (rebuilt_entries path Hnd) as Hperm.
  unfold JsObject.entries, JsObject.keys in *.
  split; [exact Hperm|]. split; [by rewrite Hperm|].
  intros name. apply propertyOf_Permutation; [exact Hperm|].
  unfold JsObject.keys. by rewrite Hperm.
Qed.

End LoadMore.

(** ** One run, further *)

Section ProgramMore.
Context `{PathApi} `{Collaborators}.

Lemma fs_beforeWrite (options : IOptions) (w : World) :
  fs (beforeWrite options w) =
    let files :=
      if IOptions.json options
      then <[IOptions.output options +:+ ".json"
               := File (JSON_stringify (loadedJson options))]> (fs w)
      else fs w in
    delete (IOptions.output options) files.
Proof.
  unfold beforeWrite. simpl.
  set (w1 := record _ w).
  set (w2 := if IOptions.json options then _ else w1).
  assert (fs w2 = if IOptions.json options
                  then <[IOptions.output options +:+ ".json"
                           := File (JSON_stringify (loadedJson options))]> (fs w)
                  else fs w) as E2.
  { unfold w2. by destruct (IOptions.json options). }
  unfold Fs.exists_. case_bool_decide as Hex; simpl; rewrite E2; [reflexivity|].
  symmetry. apply delete_id. rewrite <- E2.
  destruct (fs w2 !! IOptions.output options) eqn:E; [|reflexivity].
  exfalso. apply Hex. eauto.
Qed.

(** X7. Every call by which a run changes the file system names its
    output path or, when the dump is asked for, the dump path: the only
    removal it asks for is that of the output path, and the only writes
    are the dump of the loaded schema at the output path with [.json]
    appended, if the json option is set, and the generated text at the
    output path. *)
Theorem processFile_touches_only_its_outputs (options : IOptions) (w : World) :
  let out := IOptions.output options in
  ∃ evs : list Event,
    journal (outcomeWorld (processFile options w)) = journal w ++ evs
    ∧ (∀ p, FsRemove p ∈ evs → p = out)
    ∧ (∀ p content, FsWriteFile p content ∈ evs →
         (p = out ∧ content = generatedText options)
         ∨ (IOptions.json options = true
            ∧ p = out +:+ ".json"
            ∧ content = JSON_stringify (loadedJson options))).
Proof.
  intros out.
  destruct (journal_beforeWrite options w) as (removed & Hrem & Hj).
  assert (∃ tail : list Event,
            journal (outcomeWorld (processFile options w))
            = journal (beforeWrite options w) ++ tail
            ∧ (tail = [FsWriteFile out (generatedText options);
                       ConsoleLog ("Wrote types to '" +:+ out +:+ "'")]
               ∨ tail = [ConsoleError (noDirectoryMessage out)]))
    as (tail & Hj' & Htail).
  { rewrite processFile_unfold.
    destruct (Fs.exists_ (beforeWrite options w) (path_dirname out)) eqn:Ed.
    - rewrite (writeSource_ok _ _ _ Ed). simpl.
      eexists. split; [by rewrite <- app_assoc|]. by left.
    - rewrite (writeSource_fail _ _ _ Ed). simpl.
      eexists. split; [reflexivity|]. by right. }
  exists ([ConsoleInfo ("Processing file " +:+ IOptions.cds options)]
          ++ (if IOptions.json options then [jsonDump options] else [])
          ++ removed ++ tail).
  split; [rewrite Hj', Hj; by rewrite <- !app_assoc|].
  assert (∀ e, e ∈ [ConsoleInfo ("Processing file " +:+ IOptions.cds options)]
                   ++ (if IOptions.json options then [jsonDump options] else [])
                   ++ removed ++ tail →
               e = ConsoleInfo ("Processing file " +:+ IOptions.cds options)
               ∨ (IOptions.json options = true ∧ e = jsonDump options)
               ∨ e = FsRemove out
               ∨ e = FsWriteFile out (generatedText options)
               ∨ e = ConsoleLog ("Wrote types to '" +:+ out +:+ "'")
               ∨ e = ConsoleError (noDirectoryMessage out)) as Hcases.
  { intros e He.
    apply elem_of_app in He as [He|He];
      [apply list_elem_of_singleton in He; by left|].
    apply elem_of_app in He as [He|He].
    { destruct (IOptions.json options); [|by apply elem_of_nil in He].
      apply list_elem_of_singleton in He. right. left. by split. }
    apply elem_of_app in He as [He|He].
    { destruct Hrem as [-> | ->]; [by apply elem_of_nil in He|].
      apply list_elem_of_singleton in He. by right; right; left. }
    destruct Htail as [-> | ->].
    - apply elem_of_cons in He as [He|He]; [by right; right; right; left|].
      apply list_elem_of_singleton in He. by right; right; right; right; left.
    - apply list_elem_of_singleton in He. by right; right; right; right; right. }
  split.
  - intros p Hin.
    destruct (Hcases _ Hin) as [E|[[_ E]|[E|[E|[E|E]]]]];
      try discriminate. by injection E.
  - intros p content Hin.
    destruct (Hcases _ Hin) as [E|[[Hjson E]|[E|[E|[E|E]]]]];
      try discriminate.
    + right. unfold jsonDump in E. injection E as -> ->. by repeat split.
    + left. by injection E.
Qed.


Lemma processFile_fails (options : IOptions) (w : World) :
  let out := IOptions.output options in
  IOptions.json options = false →
  Fs.exists_ w (path_dirname out) = false →
  processFile options w =
    Exit (-1) (record (ConsoleError (noDirectoryMessage out)) (beforeWrite options w))
  ∧ journal (beforeWrite options w) =
      journal w ++ [ConsoleInfo ("Processing file " +:+ IOptions.cds options)]
      ++ (if Fs.exists_ w out then [FsRemove out] else []).
Proof.
  intros out Hjson Hdir. rewrite processFile_unfold. split.
  - apply writeSource_fail.
    unfold Fs.exists_ in *. rewrite fs_beforeWrite, Hjson. simpl.
    apply bool_decide_eq_false in Hdir. apply bool_decide_eq_false.
    intros [x Hx]. apply Hdir. exists x.
    apply lookup_delete_Some in Hx. by destruct Hx.
  - unfold beforeWrite. rewrite Hjson.
    change (Fs.exists_ (record _ w) (IOptions.output options))
      with (Fs.exists_ w out).
    destruct (Fs.exists_ w out); simpl; by rewrite <- ?app_assoc, ?app_nil_r.
Qed.

Lemma processFile_fails_summary (options : IOptions) (w : World) :
  let out := IOptions.output options in
  IOptions.json options = false →
  Fs.exists_ w (path_dirname out) = false →
  ∃ w',
    processFile options w = Exit (-1) w'
    ∧ fs w' = delete out (fs w)
    ∧ writes (journal w') = writes (journal w)
    ∧ infos (journal w')
      = infos (journal w) ++ ["Processing file " +:+ IOptions.cds options]
    ∧ last (journal w') = Some (ConsoleError (noDirectoryMessage out)).
Proof.
  intros out Hjson Hdir.
  destruct (processFile_fails options w Hjson Hdir) as [E Hj].
  eexists. split; [exact E|]. split; [|split; [|split]].
  - simpl. rewrite fs_beforeWrite, Hjson. reflexivity.
  - simpl. rewrite Hj.
    destruct (Fs.exists_ w (IOptions.output options)); rewrite !writes_app; simpl;
      by rewrite ?app_nil_r.
  - simpl. rewrite Hj.
    destruct (Fs.exists_ w (IOptions.output options)); rewrite !infos_app; simpl;
      by rewrite ?app_nil_r.
  - simpl. apply last_snoc.
Qed.

(** X9. A run without dump that does not find the directory of its
    output ends the process with code -1: it has announced the file,
    the last thing it prints is the error naming the directory, it
    writes nothing, and no output file is left behind (an older one
    was removed before the directory was looked at). *)
Theorem processFile_without_directory (options : IOptions) (w : World) :
  let out := IOptions.output options in
  fs w !! out ≠ Some Directory →
  IOptions.json options = false →
  Fs.exists_ w (path_dirname out) = false →
  ∃ w',
    processFile options w = Exit (-1) w'
    ∧ fs w' = delete out (fs w)
    ∧ writes (journal w') = writes (journal w)
    ∧ infos (journal w')
      = infos (journal w) ++ ["Processing file " +:+ IOptions.cds options]
    ∧ last (journal w') = Some (ConsoleError (noDirectoryMessage out)).
Proof. intros out _. apply processFile_fails_summary. Qed.

(** X10. A run reads six of the options: [cds], [output], [prefix],
    [json], [format] and [sort]. The debug flag, the folder and the
    watch flag make no difference to what it does. *)
Theorem processFile_ignores_other_options (o1 o2 : IOptions) (w : World) :
  IOptions.cds o1 = IOptions.cds o2 →
  IOptions.output o1 = IOptions.output o2 →
  IOptions.prefix o1 = IOptions.prefix o2 →
  IOptions.json o1 = IOptions.json o2 →
  IOptions.format o1 = IOptions.format o2 →
  IOptions.sort o1 = IOptions.sort o2 →
  processFile o1 w = processFile o2 w.
Proof.
  destruct o1, o2. simpl. intros -> -> -> -> -> ->. reflexivity.
Qed.

End ProgramMore.

(** ** Folder mode, [run] and the watcher, further *)

Section DriverMore.
Context `{PathApi} `{Collaborators}.

Lemma processFiles_unfold (options : IOptions) (folder : string) (w : World) :
  IOptions.folder options = Some folder →
  processFiles options w
  = forOf (folderRuns options folder (dirents w folder)) processFile w.
Proof.
  intros Hfolder. unfold processFiles. rewrite Hfolder. simpl.
  unfold mbind at 1, Proc_bind, Fs.readdirSync. apply processFiles_loop.
Qed.

Lemma folderRuns_app (options : IOptions) (folder : string) (l l' : list string) :
  folderRuns options folder (l ++ l')
  = folderRuns options folder l ++ folderRuns options folder l'.
Proof. unfold folderRuns. by rewrite filter_app, map_app. Qed.

Lemma folderRuns_none (options : IOptions) (folder : string) (l : list string) :
  (∀ entry, entry ∈ l → path_extname entry ≠ ".cds") →
  folderRuns options folder l = [].
Proof.
  intros Hnone. unfold folderRuns.
  induction l as [|x l IH]; [reflexivity|].
  rewrite filter_cons. rewrite decide_False.
  - apply IH. intros entry Hin. apply Hnone. by apply list_elem_of_further.
  - apply Hnone. apply list_elem_of_here.
Qed.

(** X11. Folder mode on a folder without [.cds] entries, an empty
    folder included, does nothing at all: it prints nothing, reads no
    schema, writes and removes nothing. *)
Theorem processFiles_without_cds_entries
    (options : IOptions) (folder : string) (w : World) :
  IOptions.folder options = Some folder →
  (∀ entry, entry ∈ dirents w folder → path_extname entry ≠ ".cds") →
  processFiles options w = Done tt w.
Proof.
  intros Hfolder Hnone. rewrite (processFiles_unfold _ _ _ Hfolder).
  by rewrite (folderRuns_none _ _ _ Hnone).
Qed.

(** X12. Folder mode stops at the first run that ends the process. If
    the first [.cds] entry of the listing does not find the directory
    of its output, the process exits with code -1 after announcing that
    one file: no later entry is announced, read or written. *)
Theorem processFiles_stops_at_fatal_run
    (options : IOptions) (folder : string) (w : World)
    (before after : list string) (entry : string) :
  IOptions.folder options = Some folder →
  IOptions.json options = false →
  dirents w folder = before ++ entry :: after →
  (∀ e, e ∈ before → path_extname e ≠ ".cds") →
  path_extname entry = ".cds" →
  let cds := path_join [folder; entry] in
  Fs.exists_ w (path_dirname (replaceExtS cds ".ts")) = false →
  ∃ w',
    processFiles options w = Exit (-1) w'
    ∧ infos (journal w') = infos (journal w) ++ ["Processing file " +:+ cds]
    ∧ writes (journal w') = writes (journal w).
Proof.
  intros Hfolder Hjson Hlist Hbefore Hext cds Hdir.
  rewrite (processFiles_unfold _ _ _ Hfolder), Hlist.
  rewrite folderRuns_app, (folderRuns_none _ _ _ Hbefore). simpl.
  unfold folderRuns at 1. rewrite filter_cons, decide_True by exact Hext.
  simpl. fold cds.
  destruct (processFile_fails_summary
              (spreadWith options cds (replaceExtS cds ".ts")) w Hjson Hdir)
    as (w' & E & _ & W & I & _).
  exists w'. split; [|by split].
  by rewrite (bind_Exit _ _ _ _ _ E).
Qed.

(** X13. [run] leaves a watcher behind exactly when the watch option is
    set and the initial processing did not end the process. Without
    the watch option it is the initial processing and nothing more;
    and when the initial processing ends the process, no watcher is
    created and nothing is printed after the error. *)
Theorem run_leaves_watcher_iff (options : IOptions) (w : World) :
  ((∃ watcher w', run options w = Done (Some watcher) w')
     ↔ IOptions.watch options = true
       ∧ ∃ w1, initialProcessing options w = Done tt w1)
  ∧ (IOptions.watch options = false →
       ∀ w1, initialProcessing options w = Done tt w1 →
             run options w = Done None w1)
  ∧ (∀ code w1, initialProcessing options w = Exit code w1 →
                run options w = Exit code w1).
Proof.
  assert (∀ w0, run options w0 = (initialProcessing options ≫= λ _, createWatcher options) w0)
    as Hrun by reflexivity.
  split; [split|split].
  - intros (watcher & w' & E). rewrite Hrun in E.
    unfold mbind, Proc_bind in E.
    destruct (initialProcessing options w) as [[] w1|c w1]; [|discriminate].
    destruct (createWatcher_inv _ _ _ _ E) as [Hwatch _]. eauto.
  - intros (Hwatch & w1 & E1).
    destruct (createWatcher_watching options Hwatch) as (watcher & Hw & _).
    destruct (Hw w1) as (w' & E').
    exists watcher, w'. rewrite Hrun. by rewrite (bind_Done _ _ _ _ _ E1).
  - intros Hwatch w1 E1. rewrite Hrun, (bind_Done _ _ _ _ _ E1).
    unfold createWatcher, createWatcherWith. by rewrite Hwatch.
  - intros code w1 E1. rewrite Hrun. by apply bind_Exit.
Qed.

(** X14. In folder mode [run] never looks at the [cds] and [output]
    options: the initial runs and the watcher's re-runs overwrite both
    with the paths of the file at hand, so any two values for them give
    the same processing and the same watcher. *)
Theorem run_folder_mode_ignores_cds_and_output
    (options : IOptions) (cds output : string) (w : World) :
  Js.truthy (IOptions.folder options) = true →
  run (spreadWith options cds output) w = run options w.
Proof.
  intros Hfolder. unfold run, createWatcher, createWatcherWith, processFiles.
  simpl. rewrite Hfolder. reflexivity.
Qed.

(** X15. A watcher re-run does not depend on the [cds] and [output]
    options of the initial run: it writes the text generated from the
    file of the event at [replaceExt(filePath, ".ts")], with the dump
    next to it if asked for, and these are its only writes. *)
Theorem rerun_writes_next_to_schema
    (options : IOptions) (filePath : string) (w : World) :
  let out := replaceExtS filePath ".ts" in
  (∀ cds output,
     rerun (spreadWith options cds output) filePath w = rerun options filePath w)
  ∧ (path_dirname out ≠ out →
     Fs.writable w out →
     (IOptions.json options = true → Fs.writable w (out +:+ ".json")) →
     ∃ w',
       rerun options filePath w = Done tt w'
       ∧ fs w' !! out = Some (File (generatedText (spreadWith options filePath out)))
       ∧ writes (journal w')
         = writes (journal w) ++ runWrites (spreadWith options filePath out)).
Proof.
  intros out. split; [reflexivity|].
  intros Hne [Hparent _] _. unfold rerun. fold out.
  assert (Fs.exists_ w (path_dirname out) = true) as Hdir.
  { unfold Fs.exists_. rewrite Hparent. apply bool_decide_eq_true. eauto. }
  destruct (processFile_completes (spreadWith options filePath out) w Hne Hdir)
    as (w' & E & Hout & _ & _ & Hwrites & _).
  exists w'. split; [exact E|]. split; [exact Hout|exact Hwrites].
Qed.

End DriverMore.

(** ** The further statements at the samples *)

Section ConcreteMore.
Local Existing Instance posixPath.

Section WithDemo.
Local Existing Instance Demo.collaborators.

Lemma replaceExt_preserves_typeof_witness :
  replaceExt JsNull ".ts" = JsNull
  ∧ replaceExt (JsString "srv/a.cds") ".ts" = JsString (replaceExtS "srv/a.cds" ".ts").
Proof.
  split.
  - apply (proj1 (proj2 (replaceExt_preserves_typeof JsNull ".ts"))). discriminate.
  - apply (proj2 (proj2 (replaceExt_preserves_typeof (JsString "srv/a.cds") ".ts"))).
    reflexivity.
Defined.

Lemma generateCode_nothing_parsed_witness :
  generateCode Demo.getTypes (λ ns src types, src ++ Demo.emit ns types)
    ["// kept"] (mkIParsed (Some []) None None) "I"
  = ["// kept"].
Proof.
  apply generateCode_nothing_parsed; reflexivity.
Defined.

Lemma collectNamespaces_prefix_and_names_witness :
  3%nat = length (collectNamespaces
                    (Demo.parse (mkICsn (Demo.schemaOf "srv/orders.cds") tt)) "I")
  ∧ parsed_definitions (Demo.parse (mkICsn (Demo.schemaOf "srv/orders.cds") tt))
    = Some [("Currency", "type")].
Proof.
  apply (proj2 (proj2 (collectNamespaces_prefix_and_names
                         (Demo.parse (mkICsn (Demo.schemaOf "srv/orders.cds") tt)) "I"))
           2%nat (new_Namespace [("Currency", "type")] "I" None));
    reflexivity.
Defined.

Lemma sort_option_never_alters_definitions_witness :
  ∃ result,
    loadCdsAndConvertToJSON "srv/orders.cds" true Demo.world = Done result Demo.world
    ∧ propertyOf (csn_definitions result) "Currency" = Some "type".
Proof.
  destruct (sort_option_never_alters_definitions "srv/orders.cds" Demo.world)
    as (result & E & _ & _ & Hprop).
  - change (NoDup ["shop.Order"; "shop.Item"; "Currency"; "admin.User"]).
    compute_done.
  - exists result. split; [exact E|]. rewrite Hprop. reflexivity.
Defined.

Lemma processFile_touches_only_its_outputs_witness :
  ∃ evs,
    journal (outcomeWorld (processFile Demo.options Demo.world)) = [] ++ evs
    ∧ ¬ FsRemove "gen" ∈ evs.
Proof.
  destruct (processFile_touches_only_its_outputs Demo.options Demo.world)
    as (evs & Hj & Hremove & _).
  exists evs. split; [exact Hj|].
  intros Hin. apply Hremove in Hin. discriminate.
Defined.


Lemma processFile_without_directory_witness :
  ∃ w',
    processFile Sample.lostOptions Demo.world = Exit (-1) w'
    ∧ fs w' = delete "out/orders.ts" (fs Demo.world)
    ∧ last (journal w')
      = Some (ConsoleError "Unable to write types: 'out' is not a valid directory").
Proof.
  destruct (processFile_without_directory Sample.lostOptions Demo.world)
    as (w' & E & Hfs & _ & _ & Hlast).
  - vm_compute. discriminate.
  - reflexivity.
  - vm_compute. reflexivity.
  - exists w'. split; [exact E|]. split; [exact Hfs|]. rewrite Hlast.
    vm_compute. reflexivity.
Defined.

Lemma processFile_ignores_other_options_witness :
  processFile Demo.options Demo.world = processFile Sample.otherFlags Demo.world.
Proof.
  apply processFile_ignores_other_options; reflexivity.
Defined.

Lemma processFiles_without_cds_entries_witness :
  processFiles Sample.docsOptions Sample.bareWorld = Done tt Sample.bareWorld.
Proof.
  apply (processFiles_without_cds_entries Sample.docsOptions "docs"); [reflexivity|].
  intros entry Hin. vm_compute in Hin.
  repeat (apply elem_of_cons in Hin as [-> | Hin]; [vm_compute; discriminate|]).
  by apply elem_of_nil in Hin.
Defined.

Lemma processFiles_stops_at_fatal_run_witness :
  ∃ w',
    processFiles Demo.folderOptions Sample.bareWorld = Exit (-1) w'
    ∧ infos (journal w') = ["Processing file srv/orders.cds"]
    ∧ writes (journal w') = [].
Proof.
  destruct (processFiles_stops_at_fatal_run Demo.folderOptions "srv" Sample.bareWorld
              [] ["README.md"; "people.cds"; ".cds"] "orders.cds")
    as (w' & E & I & W).
  - reflexivity.
  - reflexivity.
  - reflexivity.
  - intros e He. by apply elem_of_nil in He.
  - vm_compute. reflexivity.
  - vm_compute. reflexivity.
  - exists w'. split; [exact E|]. split.
    + rewrite I. vm_compute. reflexivity.
    + exact W.
Defined.

Lemma run_leaves_watcher_iff_witness :
  (∃ watcher w', run Demo.options Demo.world = Done (Some watcher) w')
  ∧ ∃ w', run Sample.lostOptions Demo.world = Exit (-1) w'.
Proof.
  split.
  - apply (proj1 (run_leaves_watcher_iff Demo.options Demo.world)).
    split; [reflexivity|].
    exists (outcomeWorld (initialProcessing Demo.options Demo.world)).
    vm_compute. reflexivity.
  - exists (outcomeWorld (initialProcessing Sample.lostOptions Demo.world)).
    apply (proj2 (proj2 (run_leaves_watcher_iff Sample.lostOptions Demo.world))).
    vm_compute. reflexivity.
Defined.

Lemma run_folder_mode_ignores_cds_and_output_witness :
  run (spreadWith Demo.folderOptions "srv/orders.cds" "gen/orders.ts") Demo.world
  = run Demo.folderOptions Demo.world.
Proof.
  apply run_folder_mode_ignores_cds_and_output. reflexivity.
Defined.

Lemma rerun_writes_next_to_schema_witness :
  ∃ w',
    rerun Demo.options "srv/orders.cds" Demo.world = Done tt w'
    ∧ is_Some (fs w' !! "srv/orders.ts")
    ∧ map fst (writes (journal w')) = ["srv/orders.ts.json"; "srv/orders.ts"].
Proof.
  destruct (proj2 (rerun_writes_next_to_schema Demo.options "srv/orders.cds" Demo.world))
    as (w' & E & Hout & Hwrites).
  - vm_compute. discriminate.
  - split; [vm_compute; reflexivity|vm_compute; discriminate].
  - intros _. split; [vm_compute; reflexivity|vm_compute; discriminate].
  - exists w'. split; [exact E|]. split.
    + change (replaceExtS "srv/orders.cds" ".ts") with "srv/orders.ts" in Hout.
      rewrite Hout. eauto.
    + rewrite Hwrites. vm_compute. reflexivity.
Defined.

End WithDemo.

Section WithSample.
Local Existing Instance Sample.collaborators.

Lemma sort_option_keeps_sorted_schema_witness :
  loadCdsAndConvertToJSON "srv/orders.cds" true Demo.world
  = Done (cds_load_json "srv/orders.cds") Demo.world.
Proof.
  apply sort_option_keeps_sorted_schema.
  - change (NoDup ["Currency"; "admin.User"; "shop.Item"; "shop.Order"]).
    compute_done.
  - repeat match goal with
           | |- StronglySorted _ _ => constructor
           | |- Forall _ _ => constructor
           end;
      by vm_compute.
Defined.

End WithSample.
End ConcreteMore.
